(** * bandcamp-downloader: a shallow embedding of [bandcamp.py]

    The program logs into a storefront through a browser, turns the
    browser's cookies into an HTTP cookie jar, walks the paginated
    purchase collection and downloads, extracts and locks every item.

    The embedding follows the source function by function.  Python
    exceptions are an explicit [result] type threaded through a small
    state-and-error monad; the file system, the network, the console
    and the browser are explicit state.  External libraries (the HTML
    tokenizer, the JSON codec, the zip reader, the web server and the
    browser) are Section variables: the theorems hold for every
    behaviour they may show. *)

From Stdlib Require Import ZArith QArith List String Ascii Bool Lia.
From Stdlib Require Import DecimalString DecimalZ DecimalPos.
From stdpp Require Import gmap strings list fin_maps.

#[local] Open Scope string_scope.
#[local] Open Scope Z_scope.

(** Let [simpl] and [cbn] compute appends on strings. *)
#[local] Arguments String.append !s1 s2 : simpl nomatch.

(** ** Exceptions and the state-and-error monad *)

Inductive Exn : Type :=
| KeyError (key : string)
| TypeError
| AttributeError
| ValueError
| JSONDecodeError
| MissingSchema
| ConnectionError
| FileNotFoundError
| FileExistsError
| IsADirectoryError
| NotADirectoryError
| BadZipFile
| CookieConflictError
| WebDriverException
| TimeoutException
| RecursionError.

Inductive result (A : Type) : Type :=
| Ok (a : A)
| Raise (e : Exn).
Arguments Ok {A} a.
Arguments Raise {A} e.

(** A computation over a state [S]: the state is returned on both
    outcomes, because the effects performed before an exception stay. *)
Definition M (S A : Type) : Type := S -> result A * S.

Definition ret {S A} (a : A) : M S A := fun s => (Ok a, s).
Definition raise {S A} (e : Exn) : M S A := fun s => (Raise e, s).
Definition bind {S A B} (m : M S A) (k : A -> M S B) : M S B :=
  fun s => match m s with
           | (Ok a, s') => k a s'
           | (Raise e, s') => (Raise e, s')
           end.
Definition get_state {S} : M S S := fun s => (Ok s, s).
Definition modify {S} (f : S -> S) : M S unit := fun s => (Ok tt, f s).
Definition lift_result {S A} (r : result A) : M S A := fun s => (r, s).

(** [try: body finally: fin] -- [fin] runs on both outcomes of [body];
    an exception of [body] is raised again after [fin], unless [fin]
    raises itself. *)
Definition try_finally {S A} (body : M S A) (fin : M S unit) : M S A :=
  fun s => match body s with
           | (r, s') => match fin s' with
                        | (Ok _, s'') => (r, s'')
                        | (Raise e, s'') => (Raise e, s'')
                        end
           end.

(** [try: body except E: handler] -- [handler] runs when [body] raises
    an exception of the class [caught], in the state [body] has left. *)
Definition try_except {S A} (body : M S A) (caught : Exn -> bool)
  (handler : M S A) : M S A :=
  fun s => match body s with
           | (Ok a, s') => (Ok a, s')
           | (Raise e, s') => if caught e then handler s' else (Raise e, s')
           end.

Declare Scope monad_scope.
Delimit Scope monad_scope with monad.
Notation "x <- m ;; k" := (bind m (fun x => k))
  (at level 100, m at next level, right associativity) : monad_scope.
Notation "m ;;; k" := (bind m (fun _ => k))
  (at level 100, right associativity) : monad_scope.
#[local] Open Scope monad_scope.

Definition result_bind {A B} (r : result A) (k : A -> result B) : result B :=
  match r with Ok a => k a | Raise e => Raise e end.

(** ** Strings *)

Definition slash : ascii := "/"%char.

Definition startswith_slash (s : string) : bool :=
  match s with
  | String c _ => Ascii.eqb c slash
  | EmptyString => false
  end.

Fixpoint endswith_slash (s : string) : bool :=
  match s with
  | EmptyString => false
  | String c EmptyString => Ascii.eqb c slash
  | String _ s' => endswith_slash s'
  end.

Fixpoint has_slash (s : string) : bool :=
  match s with
  | EmptyString => false
  | String c s' => Ascii.eqb c slash || has_slash s'
  end.

(** [str(n)] for a Python int. *)
Definition str_int (n : Z) : string := NilZero.string_of_int (Z.to_int n).

(** [posixpath.join(a, b)]: an absolute [b] discards [a]. *)
Definition path_join (a b : string) : string :=
  if startswith_slash b then b
  else if (String.eqb a "" || endswith_slash a)%bool then a ++ b
  else a ++ "/" ++ b.

(** ** Paths as the file system resolves them

    A path string is resolved component by component: empty components
    and [.] are skipped and [..] steps to the parent.  A resolved path
    is a flag (absolute or relative to the working directory) and the
    stack of its components, innermost first.  The resolution is by
    name, as [os.path.normpath] has it: it is the path the kernel
    walks to when the directories that a [..] steps out of exist, as
    they do for names without a [..] component. *)

Definition Path : Type := bool * list string.

Definition push (abs : bool) (comp : string) (stk : list string) : list string :=
  if (String.eqb comp "" || String.eqb comp ".")%bool then stk
  else if String.eqb comp ".." then
    match stk with
    | [] => if abs then [] else [".."]
    | top :: rest => if String.eqb top ".." then ".." :: stk else rest
    end
  else comp :: stk.

Fixpoint scan (abs : bool) (s : string) (st : list string * string)
  : list string * string :=
  match s with
  | EmptyString => st
  | String c s' =>
      if Ascii.eqb c slash
      then scan abs s' (push abs (snd st) (fst st), "")
      else scan abs s' (fst st, snd st ++ String c "")
  end.

Definition resolve (s : string) : Path :=
  let abs := startswith_slash s in
  let st := scan abs s ([], "") in
  (abs, push abs (snd st) (fst st)).

Definition parent (p : Path) : Path :=
  match snd p with
  | [] => if fst p then p else (false, [".."])
  | top :: rest => if String.eqb top ".." then (fst p, ".." :: snd p)
                   else (fst p, rest)
  end.

(** ** The file system

    Regular files with their content, and directories, both keyed by
    resolved path.  The working directory, the root and the
    directories above the working directory always exist. *)

Record FS : Type := mkFS {
  files : gmap Path string;
  dirs : gset Path
}.

Definition empty_fs : FS := mkFS ∅ ∅.

Definition is_file (fs : FS) (p : Path) : bool :=
  match files fs !! p with Some _ => true | None => false end.

Definition is_dir (fs : FS) (p : Path) : bool :=
  forallb (String.eqb "..") (snd p) || bool_decide (p ∈ dirs fs).

(** [os.path.exists] on a resolved path. *)
Definition path_exists (fs : FS) (p : Path) : bool :=
  is_dir fs p || is_file fs p.

Definition missing_parent (fs : FS) (p : Path) : Exn :=
  if is_file fs (parent p) then NotADirectoryError else FileNotFoundError.

(** [os.mkdir] *)
Definition mkdir (p : Path) : M FS unit :=
  fun fs =>
    if path_exists fs p then (Raise FileExistsError, fs)
    else if negb (is_dir fs (parent p)) then (Raise (missing_parent fs p), fs)
    else (Ok tt, mkFS (files fs) ({[ p ]} ∪ dirs fs)).

(** [os.makedirs]: the missing ancestors first, then the leaf.  The
    ancestors created before a failure stay. *)
Fixpoint makedirs_stk (abs : bool) (stk : list string) : M FS unit :=
  match stk with
  | [] => raise FileExistsError
  | c :: t =>
      (fun fs => if path_exists fs (abs, t) then (Ok tt, fs)
                 else makedirs_stk abs t fs) ;;;
      mkdir (abs, c :: t)
  end.

Definition makedirs (p : Path) : M FS unit := makedirs_stk (fst p) (snd p).

(** [open(p, 'w')]: creates or truncates the file. *)
Definition open_w (p : Path) : M FS unit :=
  fun fs =>
    if is_dir fs p then (Raise IsADirectoryError, fs)
    else if negb (is_dir fs (parent p)) then (Raise (missing_parent fs p), fs)
    else (Ok tt, mkFS (<[ p := "" ]> (files fs)) (dirs fs)).

(** [f.write(block)] on a file opened for writing. *)
Definition write_block (p : Path) (block : string) : M FS unit :=
  modify (fun fs =>
    match files fs !! p with
    | Some old => mkFS (<[ p := old ++ block ]> (files fs)) (dirs fs)
    | None => fs
    end).

(** Opening a file for reading and reading it whole. *)
Definition read_file (p : Path) : M FS string :=
  fun fs =>
    if is_dir fs p then (Raise IsADirectoryError, fs)
    else match files fs !! p with
         | Some data => (Ok data, fs)
         | None => (Raise FileNotFoundError, fs)
         end.

(** [os.rename] of a regular file: the target's directory must exist,
    the target must not be a directory, an existing target file is
    replaced. *)
Definition rename_file (src dst : Path) : M FS unit :=
  fun fs =>
    match files fs !! src with
    | None => (Raise FileNotFoundError, fs)
    | Some data =>
        if is_dir fs dst then (Raise IsADirectoryError, fs)
        else if negb (is_dir fs (parent dst)) then (Raise (missing_parent fs dst), fs)
        else (Ok tt, mkFS (<[ dst := data ]> (delete src (files fs))) (dirs fs))
    end.

(** ** Archives

    A member of a zip archive as [ZipFile.extractall] sees it: the
    components of its sanitised name (outermost first; the library
    drops empty, [.] and [..] components), whether it is a directory
    entry, the data that are copied out of it, and what goes wrong when
    it is read, if anything.  The reader checks the local header of a
    member when it opens it, before the target file is created, and
    the CRC-32 at the end of the copy, when the target holds what was
    copied so far: a damaged member raises [BadZipFile] at one of the
    two places, and the other errors of the reader (a corrupt stream,
    an unsupported method) arise there too.  The members are those of
    the archive as it was opened. *)
Inductive Fault : Type :=
| OpenFails (e : Exn)
| ReadFails (e : Exn).

Record Member : Type := mkMember {
  m_path : list string;
  m_is_dir : bool;
  m_data : string;
  m_fault : option Fault
}.

Definition member_target (dir : Path) (m : Member) : Path :=
  (fst dir, (rev (m_path m) ++ snd dir)%list).

(** [ZipFile._extract_member]: create the upper directories, then the
    directory, or open the member, create the file and copy. *)
Definition extract_member (dir : Path) (m : Member) : M FS unit :=
  let target := member_target dir m in
  (fun fs => if path_exists fs (parent target) then (Ok tt, fs)
             else makedirs (parent target) fs) ;;;
  if m_is_dir m then
    fun fs => if is_dir fs target then (Ok tt, fs) else mkdir target fs
  else
    match m_fault m with
    | Some (OpenFails e) => raise e
    | Some (ReadFails e) =>
        open_w target ;;; write_block target (m_data m) ;;; raise e
    | None => open_w target ;;; write_block target (m_data m)
    end.

(** [ZipFile.extractall]: the members extracted before a failure stay. *)
Fixpoint extractall (dir : Path) (ms : list Member) : M FS unit :=
  match ms with
  | [] => ret tt
  | m :: ms' => extract_member dir m ;;; extractall dir ms'
  end.

(** The class named by [except zipfile.BadZipFile]. *)
Definition is_BadZipFile (e : Exn) : bool :=
  match e with BadZipFile => true | _ => false end.

(** ** JSON values and the Python operations the program applies to them *)

#[local] Set Warnings "-register-all".
Inductive json : Type :=
| JNull
| JBool (b : bool)
| JNum (n : Z)
| JStr (s : string)
| JArr (l : list json)
| JObj (kv : list (string * json)).

(** Python truthiness, as used by [x or {}]. *)
Definition truthy (j : json) : bool :=
  match j with
  | JNull => false
  | JBool b => b
  | JNum n => negb (n =? 0)
  | JStr s => negb (String.eqb s "")
  | JArr l => match l with [] => false | _ => true end
  | JObj kv => match kv with [] => false | _ => true end
  end.

Fixpoint assoc {A} (k : string) (kv : list (string * A)) : option A :=
  match kv with
  | [] => None
  | (k', v) :: kv' => if String.eqb k k' then Some v else assoc k kv'
  end.

(** [d.get(k, default)] *)
Definition py_get (d : json) (k : string) (default : json) : result json :=
  match d with
  | JObj kv => Ok (match assoc k kv with Some v => v | None => default end)
  | _ => Raise AttributeError
  end.

(** [d[k]] with a string key *)
Definition py_getitem (d : json) (k : string) : result json :=
  match d with
  | JObj kv => match assoc k kv with Some v => Ok v | None => Raise (KeyError k) end
  | _ => Raise TypeError
  end.

(** The values a [for] loop over [j] visits. *)
Definition py_iter (j : json) : result (list json) :=
  match j with
  | JArr l => Ok l
  | JObj kv => Ok (map (fun e => JStr (fst e)) kv)
  | JStr s => Ok (map (fun c => JStr (String c "")) (list_ascii_of_string s))
  | _ => Raise TypeError
  end.

(** A start tag as [HTMLParser] reports it to [handle_starttag]. *)
Record StartTag : Type := mkTag {
  tag_name : string;
  tag_attrs : list (string * option string)
}.

(** [dict(attrs).get(k)]: the last occurrence of a repeated attribute
    wins, an attribute without a value has value [None]. *)
Definition attrs_get (k : string) (attrs : list (string * option string))
  : option string :=
  match assoc k (rev attrs) with
  | Some v => v
  | None => None
  end.

Definition is_pagedata (t : StartTag) : bool :=
  String.eqb (tag_name t) "div" &&
  match attrs_get "id" (tag_attrs t) with
  | Some i => String.eqb i "pagedata"
  | None => false
  end.

Section BlobParser.

(** [json.loads] and the tokenizer of [html.parser] are libraries. *)
Variable json_loads : string -> option json.
Variable html_start_tags : string -> list StartTag.
(** [int(s)] on a string. *)
Variable int_of_string : string -> option Z.

(** [BandcampBlobParser.handle_starttag]; the state is [__datablob]. *)
Definition handle_starttag (t : StartTag) : M (option json) unit :=
  if negb (is_pagedata t) then ret tt
  else match attrs_get "data-blob" (tag_attrs t) with
       | None => raise TypeError
       | Some blob =>
           match json_loads blob with
           | None => raise JSONDecodeError
           | Some j => fun _ => (Ok tt, Some j)
           end
       end.

Fixpoint feed_tags (ts : list StartTag) : M (option json) unit :=
  match ts with
  | [] => ret tt
  | t :: ts' => handle_starttag t ;;; feed_tags ts'
  end.

(** [HTMLParser.feed] *)
Definition feed (text : string) : M (option json) unit :=
  feed_tags (html_start_tags text).

(** [BandcampBlobParser.data]: [self.__datablob or {}] *)
Definition data (datablob : option json) : json :=
  match datablob with
  | Some j => if truthy j then j else JObj []
  | None => JObj []
  end.

Definition py_int (j : json) : result Z :=
  match j with
  | JNum n => Ok n
  | JBool b => Ok (if b then 1 else 0)
  | JStr s => match int_of_string s with Some n => Ok n | None => Raise ValueError end
  | _ => Raise TypeError
  end.

(** [ParseUserInfo.fan_id] *)
Definition fan_id (datablob : option json) : result Z :=
  result_bind (py_get (data datablob) "fan_data" (JObj [])) (fun fan_data =>
  result_bind (py_get fan_data "fan_id" (JNum 0)) py_int).

(** [ParseUserInfo.last_token] *)
Definition last_token (datablob : option json) : result json :=
  result_bind (py_get (data datablob) "collection_data" (JObj [])) (fun cd =>
  py_get cd "last_token" (JStr "")).

(** A fresh parser ([__datablob = None]) fed one document. *)
Definition blob_of (text : string) : result unit * option json :=
  feed text None.

End BlobParser.

(** ** Items and the download-url join *)

(** A purchase record, with the fields the program reads or writes. *)
Record Item : Type := mkItem {
  sale_item_type : string;
  sale_item_id : Z;
  item_id : Z;
  item_title : string;
  band_name : string;
  token : string;
  download_url : option string
}.

Definition url_key (album : Item) : string :=
  sale_item_type album ++ str_int (sale_item_id album).

Definition set_download_url (album : Item) (url : option string) : Item :=
  mkItem (sale_item_type album) (sale_item_id album) (item_id album)
         (item_title album) (band_name album) (token album) url.

(** [map_download_urls]: the loop assigns [download_urls.get(url_key)]
    to every album and the list is returned. *)
Fixpoint map_download_urls (download_urls : gmap string string)
  (albums : list Item) : list Item :=
  match albums with
  | [] => []
  | album :: rest =>
      set_download_url album (download_urls !! url_key album)
      :: map_download_urls download_urls rest
  end.

(** ** The collection walk *)

(** The decoded body of a collection-items response. *)
Record Page : Type := mkPage {
  p_items : option (list Item);
  p_redownload_urls : option (gmap string string)
}.

(** One POST to the endpoint, as logged by the server stub. *)
Record Post : Type := mkPost {
  post_fan_id : Z;
  post_older_than_token : string;
  post_count : Z
}.

(** A synthetic server: the pages it will answer with, in order, and
    the requests it has received. *)
Record Server : Type := mkServer {
  pages : list Page;
  posts : list Post
}.

Definition session_post (rq : Post) : M Server Page :=
  fun sv => match pages sv with
            | [] => (Raise ConnectionError, mkServer [] (posts sv ++ [rq])%list)
            | p :: ps => (Ok p, mkServer ps (posts sv ++ [rq])%list)
            end.

(** [get_collection]; [depth] bounds the recursion, as the
    interpreter's stack does. *)
Fixpoint get_collection (depth : nat) (fan : Z) (last_tok : string)
  (albums : option (list Item)) : M Server (list Item) :=
  match depth with
  | O => raise RecursionError
  | S depth' =>
      response_json <- session_post (mkPost fan last_tok 100) ;;
      let albums := match albums with
                    | None | Some [] => []
                    | Some l => l
                    end in
      let items := match p_items response_json with
                   | Some l => l
                   | None => []
                   end in
      match p_redownload_urls response_json with
      | None => raise (KeyError "redownload_urls")
      | Some urls =>
          let items := map_download_urls urls items in
          match items with
          | [] => ret albums
          | i :: rest =>
              get_collection depth' fan (token (List.last items i))
                             (Some (albums ++ items)%list)
          end
      end
  end.

(** ** The per-item downloader *)

(** What the program can observe or change while it fetches: the file
    system, the URLs requested over the network, the console. *)
Record World : Type := mkWorld {
  w_fs : FS;
  w_net : list string;
  w_out : list string
}.

Definition with_fs {A} (f : M FS A) : M World A :=
  fun w => match f (w_fs w) with
           | (r, fs') => (r, mkWorld fs' (w_net w) (w_out w))
           end.

Definition print (line : string) : M World unit :=
  modify (fun w => mkWorld (w_fs w) (w_net w) (w_out w ++ [line])%list).

(** [os.path.exists] *)
Definition os_path_exists (p : string) : M World bool :=
  fun w => (Ok (path_exists (w_fs w) (resolve p)), w).

(** [response.iter_content(n)]: the body in blocks of [n] bytes. *)
Fixpoint take_str (n : nat) (s : string) : string :=
  match n, s with
  | S n', String c s' => String c (take_str n' s')
  | _, _ => EmptyString
  end.

Fixpoint drop_str (n : nat) (s : string) : string :=
  match n, s with
  | S n', String _ s' => drop_str n' s'
  | _, _ => s
  end.

Fixpoint iter_content_go (fuel n : nat) (body : string) : list string :=
  match fuel, body with
  | S fuel', String _ _ =>
      take_str n body :: iter_content_go fuel' n (drop_str n body)
  | _, _ => []
  end.

Definition iter_content (n : nat) (body : string) : list string :=
  iter_content_go (String.length body) n body.

(** The state of a [DownloadAlbum] object. *)
Record DownloadAlbum : Type := mkDownloadAlbum {
  album : Item;
  base_dir : string;
  datablob : option json;
  parsed_url : option json
}.

Definition new_DownloadAlbum (a : Item) (dir : option string) : DownloadAlbum :=
  mkDownloadAlbum a
    (match dir with
     | Some d => if String.eqb d "" then "Music" else d
     | None => "Music"
     end)
    None None.

Definition album_name (self : DownloadAlbum) : string :=
  band_name (album self) ++ " - " ++ item_title (album self).

Definition zip_name (self : DownloadAlbum) : string :=
  str_int (item_id (album self)) ++ ".zip".

Definition lock_name (self : DownloadAlbum) : string :=
  "." ++ str_int (item_id (album self)) ++ ".lock".

Definition mp3_name (self : DownloadAlbum) : string :=
  item_title (album self) ++ ".mp3".

Definition dir_string (self : DownloadAlbum) : string :=
  path_join (path_join (base_dir self) (band_name (album self)))
            (item_title (album self)).

Section Fetch.

Variable json_loads : string -> option json.
Variable html_start_tags : string -> list StartTag.
(** The web server: the body served for a URL given the requests made
    so far, or no response. *)
Variable http_get : list string -> string -> option string.
(** The zip reader: the members of an archive, or not an archive. *)
Variable zip_members : string -> option (list Member).

(** [session.get(url)]: a missing URL is rejected before any request
    is sent. *)
Definition session_get (url : option string) : M World string :=
  match url with
  | None => raise MissingSchema
  | Some u =>
      fun w =>
        let w' := mkWorld (w_fs w) (w_net w ++ [u])%list (w_out w) in
        match http_get (w_net w) u with
        | Some body => (Ok body, w')
        | None => (Raise ConnectionError, w')
        end
  end.

Definition url_of_json (j : option json) : option string :=
  match j with
  | Some (JStr s) => Some s
  | _ => None
  end.

(** The loop of [parse_album]: the last entry wins. *)
Fixpoint parse_downloads (downloads : list json) (url : option json)
  : result (option json) :=
  match downloads with
  | [] => Ok url
  | download :: rest =>
      result_bind (py_getitem download "downloads") (fun d =>
      result_bind (py_getitem d "mp3-v0") (fun f =>
      result_bind (py_getitem f "url") (fun u =>
      parse_downloads rest (Some u))))
  end.

(** [DownloadAlbum.parse_album]; returns the object as it has become
    ([download_url] is its [parsed_url]). *)
Definition parse_album (self : DownloadAlbum) : M World DownloadAlbum :=
  text <- session_get (download_url (album self)) ;;
  match feed json_loads html_start_tags text (datablob self) with
  | (Raise e, _) => raise e
  | (Ok _, blob) =>
      url <- lift_result
               (result_bind (py_getitem (data blob) "digital_items") (fun ds =>
                result_bind (py_iter ds) (fun l =>
                parse_downloads l (parsed_url self)))) ;;
      ret (mkDownloadAlbum (album self) (base_dir self) blob url)
  end.

(** [DownloadAlbum.download_dir]: creates the directory when it does
    not exist. *)
Definition download_dir (self : DownloadAlbum) : M World string :=
  let d := dir_string self in
  e <- os_path_exists d ;;
  (if negb e then with_fs (makedirs (resolve d)) else ret tt) ;;;
  ret d.

Definition download_path (self : DownloadAlbum) : M World string :=
  d <- download_dir self ;; ret (path_join d (zip_name self)).

Definition lock_path (self : DownloadAlbum) : M World string :=
  d <- download_dir self ;; ret (path_join d (lock_name self)).

Definition locked (self : DownloadAlbum) : M World bool :=
  p <- lock_path self ;; os_path_exists p.

Definition lock (self : DownloadAlbum) : M World unit :=
  p <- lock_path self ;; with_fs (open_w (resolve p)).

(** The handler of [extract]: the downloaded file is taken for the
    audio file itself. *)
Definition rename_to_mp3 (self : DownloadAlbum) : M World unit :=
  src <- download_path self ;;
  d <- download_dir self ;;
  with_fs (rename_file (resolve src) (resolve (path_join d (mp3_name self)))).

(** [DownloadAlbum.extract]: the [try] block holds the opening of the
    archive and the extraction of its members, so the handler also
    runs when a member is found damaged after others were extracted. *)
Definition extract (self : DownloadAlbum) : M World unit :=
  try_except
    (p <- download_path self ;;
     bytes <- with_fs (read_file (resolve p)) ;;
     match zip_members bytes with
     | Some ms =>
         d <- download_dir self ;;
         with_fs (extractall (resolve d) ms)
     | None => raise BadZipFile
     end)
    is_BadZipFile
    (rename_to_mp3 self).

Fixpoint write_blocks (p : Path) (blocks : list string) : M World unit :=
  match blocks with
  | [] => ret tt
  | b :: bs => with_fs (write_block p b) ;;; write_blocks p bs
  end.

(** [DownloadAlbum.download] *)
Definition download (self : DownloadAlbum) : M World unit :=
  p <- download_path self ;;
  with_fs (open_w (resolve p)) ;;;
  body <- session_get (url_of_json (parsed_url self)) ;;
  write_blocks (resolve p) (iter_content 1024 body).

(** [DownloadAlbum.fetch_album] *)
Definition fetch_album (self : DownloadAlbum) : M World unit :=
  l <- locked self ;;
  if l then print ("Skipping already fetched album, " ++ album_name self)
  else
    print ("Fetching album, " ++ album_name self) ;;;
    download self ;;;
    extract self ;;;
    lock self.

(** One turn of the main loop. *)
Definition process_album (music_directory : string) (a : Item) : M World unit :=
  downloader <- parse_album (new_DownloadAlbum a (Some music_directory)) ;;
  fetch_album downloader.

Fixpoint process_albums (music_directory : string) (albums : list Item)
  : M World unit :=
  match albums with
  | [] => ret tt
  | a :: rest =>
      process_album music_directory a ;;; process_albums music_directory rest
  end.

End Fetch.

(** ** Cookies *)

(** A raw cookie record of the browser; [expiry] may be null. *)
Record RawCookie : Type := mkCookie {
  c_name : string;
  c_value : string;
  c_domain : string;
  c_path : string;
  c_expiry : option Z
}.

(** The jar of the HTTP client files a cookie under its domain, path
    and name; it keeps its value and expiry. *)
Definition CookieKey : Type := string * string * string.

Definition cookie_key (c : RawCookie) : CookieKey :=
  (c_domain c, c_path c, c_name c).

Definition key_name (k : CookieKey) : string := snd k.

(** [cookie['expiry'] < now]: an integer against the float clock. *)
Definition before (e : Z) (now : Q) : bool := negb (Qle_bool now (inject_Z e)).

(** [cookie['expiry'] and cookie['expiry'] < now]: [None] and [0] are
    both false in a condition. *)
Definition skipped (now : Q) (c : RawCookie) : bool :=
  match c_expiry c with
  | None => false
  | Some e => negb (e =? 0) && before e now
  end.

(** [parse_cookie_list]: the loop body, then the loop. *)
Definition add_cookie (now : Q) (jar : gmap CookieKey (string * option Z))
  (c : RawCookie) : gmap CookieKey (string * option Z) :=
  if skipped now c then jar
  else <[ cookie_key c := (c_value c, c_expiry c) ]> jar.

Definition parse_cookie_list (now : Q) (cookies : list RawCookie)
  : gmap CookieKey (string * option Z) :=
  fold_left (add_cookie now) cookies ∅.

(** The cookies of a jar that carry a given name. *)
Definition cookies_named (name : string) (jar : gmap CookieKey (string * option Z))
  : list (CookieKey * (string * option Z)) :=
  filter (fun kv => key_name (fst kv) = name) (map_to_list jar).

(** [RequestsCookieJar.get(name)]: the value of the cookie of that
    name, [None] when there is none, an error when several domains or
    paths hold one.  (An empty value is false in the caller's test
    whether it comes back as such or as the default.) *)
Definition jar_get (jar : gmap CookieKey (string * option Z)) (name : string)
  : result (option string) :=
  match cookies_named name jar with
  | [] => Ok None
  | [kv] => Ok (Some (fst (snd kv)))
  | _ => Raise CookieConflictError
  end.

(** Truthiness of what [get] returns. *)
Definition value_truthy (v : option string) : bool :=
  match v with
  | Some s => negb (String.eqb s "")
  | None => false
  end.

(** ** Login *)

Inductive BrowserAction : Type :=
| Firefox
| Get (url : string)
| WaitForId (element_id : string)
| FindElementById (element_id : string)
| SendKeys (element_id : string) (keys : string)
| Submit (element_id : string)
| GetCookies
| Quit.

Inductive Event : Type :=
| EvBrowser (a : BrowserAction)
| EvOpenWrite (path : string).

Record LoginWorld : Type := mkLoginWorld {
  l_fs : FS;
  l_log : list Event
}.

Definition browser_actions (log : list Event) : list BrowserAction :=
  omap (fun e => match e with EvBrowser a => Some a | _ => None end) log.

Section Login.

(** The browser: whether an action fails, given the actions so far,
    and the cookies it hands out. *)
Variable browser_fails : list BrowserAction -> BrowserAction -> option Exn.
Variable browser_cookies : list BrowserAction -> list RawCookie.
(** The JSON codec on cookie lists. *)
Variable json_dump : list RawCookie -> string.
Variable json_load : string -> option (list RawCookie).
(** [time.time()] when the cache is parsed and after the login. *)
Variable now_start now_login : Q.

Definition act (a : BrowserAction) : M LoginWorld unit :=
  fun w =>
    let w' := mkLoginWorld (l_fs w) (l_log w ++ [EvBrowser a])%list in
    match browser_fails (browser_actions (l_log w)) a with
    | Some e => (Raise e, w')
    | None => (Ok tt, w')
    end.

Definition get_cookies : M LoginWorld (list RawCookie) :=
  act GetCookies ;;;
  fun w => (Ok (browser_cookies (browser_actions (l_log w))), w).

(** [wait_for_id] *)
Definition wait_for_id (element_id : string) : M LoginWorld unit :=
  act (WaitForId element_id).

(** The body of the [try] block. *)
Definition login_steps (username password : string)
  : M LoginWorld (list RawCookie) :=
  act (Get "https://bandcamp.com/login") ;;;
  wait_for_id "username-field" ;;;
  act (FindElementById "username-field") ;;;
  act (SendKeys "username-field" username) ;;;
  act (FindElementById "password-field") ;;;
  act (SendKeys "password-field" password) ;;;
  act (FindElementById "loginform") ;;;
  act (Submit "loginform") ;;;
  wait_for_id "user-nav" ;;;
  get_cookies.

(** The cached jar, when the cache exists and holds both cookies. *)
Definition cached_jar
  : M LoginWorld (option (gmap CookieKey (string * option Z))) :=
  fun w =>
    if path_exists (l_fs w) (resolve ".cookies") then
      match fst (read_file (resolve ".cookies") (l_fs w)) with
      | Raise e => (Raise e, w)
      | Ok text =>
          match json_load text with
          | None => (Raise JSONDecodeError, w)
          | Some cookies =>
              let cookie_jar := parse_cookie_list now_start cookies in
              match jar_get cookie_jar "client_id" with
              | Raise e => (Raise e, w)
              | Ok v1 =>
                  if value_truthy v1 then
                    match jar_get cookie_jar "identity" with
                    | Raise e => (Raise e, w)
                    | Ok v2 =>
                        if value_truthy v2 then (Ok (Some cookie_jar), w)
                        else (Ok None, w)
                    end
                  else (Ok None, w)
              end
          end
      end
    else (Ok None, w).

Definition write_cache (cookies : list RawCookie) : M LoginWorld unit :=
  fun w =>
    let log := (l_log w ++ [EvOpenWrite ".cookies"])%list in
    match (open_w (resolve ".cookies") ;;;
           write_block (resolve ".cookies") (json_dump cookies)) (l_fs w) with
    | (r, fs') => (r, mkLoginWorld fs' log)
    end.

(** [bandcamp_login] *)
Definition bandcamp_login (username password : string)
  : M LoginWorld (gmap CookieKey (string * option Z)) :=
  cached <- cached_jar ;;
  match cached with
  | Some cookie_jar => ret cookie_jar
  | None =>
      act Firefox ;;;
      cookies <- try_finally (login_steps username password) (act Quit) ;;
      let cookie_jar := parse_cookie_list now_login cookies in
      write_cache cookies ;;;
      ret cookie_jar
  end.

End Login.

(** ** Vocabulary of the statements *)

(** The items of a page, and the items once the join has run. *)
Definition page_items (p : Page) : list Item :=
  match p_items p with Some l => l | None => [] end.

Definition page_joined (p : Page) : list Item :=
  match p_redownload_urls p with
  | Some urls => map_download_urls urls (page_items p)
  | None => []
  end.

(** The accumulator a walk starts from: [albums=None] stands for the
    empty list. *)
Definition seed_items (albums : option (list Item)) : list Item :=
  match albums with Some l => l | None => [] end.

(** The cursors a walk over the pages [ps] must send, starting from
    [tok]: after each page, the token of its last item. *)
Fixpoint cursors (tok : string) (ps : list Page) : list string :=
  match ps with
  | [] => [tok]
  | p :: ps' =>
      tok :: cursors (match last (page_items p) with
                      | Some i => token i
                      | None => tok
                      end) ps'
  end.

(** A name the file system takes as one component of its own: no
    slash, and none of the empty name, [.] and [..]. *)
Definition plain_name (n : string) : bool :=
  negb (has_slash n) && negb (String.eqb n "") &&
  negb (String.eqb n ".") && negb (String.eqb n "..").

Fixpoint last_ascii (s : string) : option ascii :=
  match s with
  | EmptyString => None
  | String c EmptyString => Some c
  | String _ s' => last_ascii s'
  end.

(** The directory, the archive and the lock marker of a downloader, as
    resolved paths. *)
Definition dir_of (self : DownloadAlbum) : Path := resolve (dir_string self).

Definition zip_of (self : DownloadAlbum) : Path :=
  resolve (path_join (dir_string self) (zip_name self)).

Definition lock_of (self : DownloadAlbum) : Path :=
  resolve (path_join (dir_string self) (lock_name self)).

Definition mp3_of (self : DownloadAlbum) : Path :=
  resolve (path_join (dir_string self) (mp3_name self)).

(** A computation keeps a path absent when, started where the path
    does not exist, it ends (normally or not) where the path does not
    exist. *)
Definition keeps_absent {A} (q : Path) (m : M World A) : Prop :=
  forall w, path_exists (w_fs w) q = false ->
            path_exists (w_fs (snd (m w))) q = false.


(** The cookie store as the specification describes it: no entry with
    an expiry before [now], and every record without an expiry or with
    a later one filed under its key with its own value. *)
Definition store_as_specified (now : Q) (cookies : list RawCookie)
  (jar : gmap CookieKey (string * option Z)) : Prop :=
  (forall k v e, jar !! k = Some (v, Some e) -> ~ (inject_Z e < now)%Q) /\
  (forall c, c ∈ cookies ->
     (c_expiry c = None \/ exists e, c_expiry c = Some e /\ (now < inject_Z e)%Q) ->
     jar !! cookie_key c = Some (c_value c, c_expiry c)).

(** A record the loop must keep: no expiry, or one not before [now]. *)
Definition unexpired (now : Q) (c : RawCookie) : Prop :=
  c_expiry c = None \/ exists e, c_expiry c = Some e /\ (now <= inject_Z e)%Q.

(** A login computation that only drives the browser: it leaves the
    file system alone and adds to the log nothing but browser actions,
    each of them satisfying [P]. *)
Definition logs_only {A} (P : BrowserAction -> Prop) (m : M LoginWorld A) : Prop :=
  forall w,
    l_fs (snd (m w)) = l_fs w /\
    exists steps,
      l_log (snd (m w)) = (l_log w ++ map EvBrowser steps)%list /\
      Forall P steps.

(** An action of the login script proper: neither the start of the
    browser nor its release. *)
Definition script_action (a : BrowserAction) : Prop := a <> Firefox /\ a <> Quit.

(** The store holds exactly one cookie of that name, and its value is
    not empty: what [cookie_jar.get(name)] must see to count as true. *)
Definition holds_cookie (jar : gmap CookieKey (string * option Z))
  (name : string) : Prop :=
  exists kv, cookies_named name jar = [kv] /\ fst (snd kv) <> "".

(** The store holds no cookie of that name, or one with an empty value. *)
Definition lacks_cookie (jar : gmap CookieKey (string * option Z))
  (name : string) : Prop :=
  cookies_named name jar = [] \/
  exists kv, cookies_named name jar = [kv] /\ fst (snd kv) = "".

(** ** Worked inputs *)

Definition ex_item : Item :=
  mkItem "a" 7 12 "Title" "Band" "t2"
         (Some "https://bandcamp.com/download?id=12").

Definition ex_slash_item : Item :=
  mkItem "a" 7 12 "a/b" "Band" "t2"
         (Some "https://bandcamp.com/download?id=12").

Definition ex_json_loads (blob : string) : option json :=
  Some (JObj [("digital_items",
               JArr [JObj [("downloads",
                 JObj [("mp3-v0",
                   JObj [("url", JStr "https://files.example/12")])])]])]).

Definition ex_tags_pagedata (text : string) : list StartTag :=
  [ mkTag "html" [];
    mkTag "div" [("id", Some "pagedata"); ("data-blob", Some "{}")] ].

Definition ex_tags_plain (text : string) : list StartTag :=
  [ mkTag "html" []; mkTag "div" [("id", Some "content")] ].

Definition ex_int_of_string (s : string) : option Z := None.

Definition ex_http_get (requests : list string) (url : string) : option string :=
  Some "ID3 raw audio".

Definition ex_not_zip (bytes : string) : option (list Member) := None.

Definition ex_zip (bytes : string) : option (list Member) :=
  Some [ mkMember ["cover.jpg"] false "JFIF" None;
         mkMember ["disc1"; "01.mp3"] false "ID3" None ].

Definition ex_locked_fs : FS :=
  mkFS {[ (false, [".12.lock"; "Title"; "Band"; "Music"]) := "" ]}
       {[ (false, ["Music"]); (false, ["Band"; "Music"]);
          (false, ["Title"; "Band"; "Music"]) ]}.

Definition ex_locked_world : World := mkWorld ex_locked_fs [] [].

Definition ex_new_world : World := mkWorld empty_fs [] [].

Definition ex_slash_downloader : DownloadAlbum :=
  mkDownloadAlbum ex_slash_item "Music" None
                  (Some (JStr "https://files.example/12")).

Definition ex_page : Page :=
  mkPage (Some [ mkItem "a" 7 12 "Title" "Band" "t1" None;
                 mkItem "t" 8 13 "Song" "Band" "t2" None ])
         (Some {[ "a7" := "https://bandcamp.com/download?id=12" ]}).

Definition ex_empty_page : Page := mkPage (Some []) (Some ∅).

Definition ex_session_cookies : list RawCookie :=
  [ mkCookie "session" "old" "bandcamp.com" "/" None;
    mkCookie "session" "new" "bandcamp.com" "/" None ].

Definition ex_epoch_cookie : RawCookie :=
  mkCookie "identity" "x" "bandcamp.com" "/" (Some 0).

Definition ex_browser_ok (history : list BrowserAction) (a : BrowserAction)
  : option Exn := None.

Definition ex_browser_cookies (history : list BrowserAction) : list RawCookie :=
  [ mkCookie "client_id" "c0ffee" "bandcamp.com" "/" None;
    mkCookie "identity" "me" "bandcamp.com" "/" None ].

Definition ex_cache_cookies : list RawCookie :=
  [ mkCookie "client_id" "" "bandcamp.com" "/" None;
    mkCookie "identity" "me" "bandcamp.com" "/" None ].

Definition ex_json_load (text : string) : option (list RawCookie) :=
  Some ex_cache_cookies.

Definition ex_json_dump (cookies : list RawCookie) : string := "[]".

Definition ex_cache_world : LoginWorld :=
  mkLoginWorld (mkFS {[ (false, [".cookies"]) := "[]" ]} ∅) [].

(** An entry of [digital_items] that carries [url] under
    [downloads], [mp3-v0], [url]. *)
Definition mp3_url (entry url : json) : Prop :=
  exists d f,
    py_getitem entry "downloads" = Ok d /\
    py_getitem d "mp3-v0" = Ok f /\
    py_getitem f "url" = Ok url.

(** The actions of the login, in the order of the [try] block. *)
Definition login_script (username password : string) : list BrowserAction :=
  [ Get "https://bandcamp.com/login";
    WaitForId "username-field";
    FindElementById "username-field";
    SendKeys "username-field" username;
    FindElementById "password-field";
    SendKeys "password-field" password;
    FindElementById "loginform";
    Submit "loginform";
    WaitForId "user-nav";
    GetCookies ].

(** A login computation follows a script when it attempts the actions
    of the script in order and stops at the first one that fails: what
    it has logged is a prefix of the script, the whole script when it
    returns (with a result that satisfies [post]), and a prefix that
    ends in the failed action when it raises. *)
Definition follows_script {A}
  (browser_fails : list BrowserAction -> BrowserAction -> option Exn)
  (script : list BrowserAction) (post : A -> LoginWorld -> Prop)
  (m : M LoginWorld A) : Prop :=
  forall w,
    l_fs (snd (m w)) = l_fs w /\
    exists attempted,
      attempted `prefix_of` script /\
      l_log (snd (m w)) = (l_log w ++ map EvBrowser attempted)%list /\
      (forall a, fst (m w) = Ok a -> attempted = script /\ post a (snd (m w))) /\
      (forall e, fst (m w) = Raise e ->
         exists before a,
           attempted = (before ++ [a])%list /\
           browser_fails
             (browser_actions (l_log w ++ map EvBrowser before)%list) a = Some e).

Definition ex_downloader : DownloadAlbum :=
  mkDownloadAlbum ex_item "Music" None (Some (JStr "https://files.example/12")).

Definition ex_unresolved : DownloadAlbum := new_DownloadAlbum ex_item None.

Definition ex_http_down (requests : list string) (url : string) : option string :=
  None.

Definition ex_dir_world : World :=
  mkWorld (mkFS ∅ {[ (false, ["Music"]); (false, ["Band"; "Music"]);
                     (false, ["Title"; "Band"; "Music"]) ]}) [] [].

Definition ex_raw_world : World :=
  mkWorld (mkFS {[ (false, ["12.zip"; "Title"; "Band"; "Music"]) := "ID3 raw audio" ]}
                {[ (false, ["Music"]); (false, ["Band"; "Music"]);
                   (false, ["Title"; "Band"; "Music"]) ]}) [] [].

Definition ex_two_pagedata (text : string) : list StartTag :=
  [ mkTag "div" [("id", Some "pagedata"); ("data-blob", Some "1")];
    mkTag "p" [];
    mkTag "div" [("id", Some "pagedata"); ("data-blob", Some "2")];
    mkTag "span" [] ].

Definition ex_bad_pagedata (text : string) : list StartTag :=
  [ mkTag "html" []; mkTag "div" [("id", Some "pagedata")]; mkTag "p" [] ].

Definition ex_loads_digit (raw : string) : option json :=
  if String.eqb raw "1" then Some (JObj [("n", JNum 1)])
  else if String.eqb raw "2" then Some (JObj [("n", JNum 2)])
  else None.

Definition ex_entry (url : string) : json :=
  JObj [("downloads", JObj [("mp3-v0", JObj [("url", JStr url)])])].

Definition ex_two_entries (raw : string) : option json :=
  Some (JObj [("digital_items", JArr [ex_entry "https://a"; ex_entry "https://b"])]).

Definition ex_bad_page : Page :=
  mkPage (Some [mkItem "a" 9 14 "More" "Band" "t3" None]) None.

Definition ex_json_load_fresh (text : string) : option (list RawCookie) :=
  Some (ex_browser_cookies []).

Definition ex_login_world : LoginWorld := mkLoginWorld empty_fs [].

(** ** The join and the bootstrap on decoded JSON

    [map_download_urls] as it runs on the dictionaries that
    [json.loads] and [response.json()] produce, and the members of
    [ParseUserInfo] that use it. *)

(** [d[k] = v] on the entries of a dictionary: the value of an existing
    key is replaced where it stands, a new key goes to the end. *)
Fixpoint dict_set (k : string) (v : json) (kv : list (string * json))
  : list (string * json) :=
  match kv with
  | [] => [(k, v)]
  | (k', v') :: rest =>
      if String.eqb k k' then (k, v) :: rest else (k', v') :: dict_set k v rest
  end.

(** [d[k] = v] *)
Definition py_setitem (d : json) (k : string) (v : json) : result json :=
  match d with
  | JObj kv => Ok (JObj (dict_set k v kv))
  | _ => Raise TypeError
  end.

(** [d.values()] as a list *)
Definition py_values (d : json) : result (list json) :=
  match d with
  | JObj kv => Ok (map snd kv)
  | _ => Raise AttributeError
  end.

Section JsonJoin.

(** [repr] of a list or a dictionary, which [str] falls back to. *)
Variable py_repr : json -> string.

(** [str(x)] *)
Definition py_str (j : json) : string :=
  match j with
  | JNum n => str_int n
  | JStr s => s
  | JNull => "None"
  | JBool b => if b then "True" else "False"
  | _ => py_repr j
  end.

(** [a + str(b)]: only a string can be added to a string. *)
Definition py_add_str (a : json) (b : string) : result string :=
  match a with
  | JStr s => Ok (s ++ b)
  | _ => Raise TypeError
  end.

(** [map_download_urls] on decoded JSON. *)
Fixpoint map_download_urls_json (download_urls : json) (albums : list json)
  : result (list json) :=
  match albums with
  | [] => Ok []
  | album :: rest =>
      result_bind (py_getitem album "sale_item_type") (fun t =>
      result_bind (py_getitem album "sale_item_id") (fun i =>
      result_bind (py_add_str t (py_str i)) (fun url_key =>
      result_bind (py_get download_urls url_key JNull) (fun url =>
      result_bind (py_setitem album "download_url" url) (fun album' =>
      result_bind (map_download_urls_json download_urls rest) (fun rest' =>
      Ok (album' :: rest')))))))
  end.

(** [ParseUserInfo.albums] *)
Definition albums (datablob : option json) : result (list json) :=
  result_bind (py_get (data datablob) "item_cache" (JObj [])) (fun cache =>
  result_bind (py_get cache "collection" (JObj [])) (fun collection =>
  result_bind (py_get (data datablob) "collection_data" (JObj [])) (fun cd =>
  result_bind (py_get cd "redownload_urls" (JObj [])) (fun download_urls =>
  result_bind (py_values collection) (fun items =>
  map_download_urls_json download_urls items))))).

End JsonJoin.

Section Bootstrap.

Variable json_loads : string -> option json.
Variable html_start_tags : string -> list StartTag.
Variable http_get : list string -> string -> option string.

(** [ParseUserInfo.get_albums]: the state is the world and the
    parser's [__datablob]; the result is [self.data]. *)
Definition get_albums (username : string) (datablob : option json)
  : M World (json * option json) :=
  text <- session_get http_get (Some ("https://bandcamp.com/" ++ username)) ;;
  match feed json_loads html_start_tags text datablob with
  | (Raise e, _) => raise e
  | (Ok _, blob) => ret (data blob, blob)
  end.

End Bootstrap.

(** A decoded dictionary [j] carries the fields of the record [a]; a
    missing [download_url] stands for a null one, other keys may be
    present and the order is free. *)
Definition represents (j : json) (a : Item) : Prop :=
  exists kv,
    j = JObj kv /\
    assoc "sale_item_type" kv = Some (JStr (sale_item_type a)) /\
    assoc "sale_item_id" kv = Some (JNum (sale_item_id a)) /\
    assoc "item_id" kv = Some (JNum (item_id a)) /\
    assoc "item_title" kv = Some (JStr (item_title a)) /\
    assoc "band_name" kv = Some (JStr (band_name a)) /\
    assoc "token" kv = Some (JStr (token a)) /\
    match download_url a with
    | Some u => assoc "download_url" kv = Some (JStr u)
    | None => assoc "download_url" kv = None \/
              assoc "download_url" kv = Some JNull
    end.

(** A decoded dictionary of URLs and the mapping it stands for. *)
Definition represents_urls (j : json) (urls : gmap string string) : Prop :=
  exists kv, j = JObj kv /\ forall k, assoc k kv = JStr <$> (urls !! k).

Definition ex_json_item : json :=
  JObj [ ("band_name", JStr "Band"); ("item_id", JNum 12);
         ("item_title", JStr "Title"); ("sale_item_id", JNum 7);
         ("sale_item_type", JStr "a"); ("token", JStr "t1") ].

Definition ex_json_urls : json :=
  JObj [("a7", JStr "https://bandcamp.com/download?id=12")].

Definition ex_repr (j : json) : string := "?".

Definition ex_profile_blob : json :=
  JObj [ ("item_cache", JObj [("collection", JObj [("a7", ex_json_item)])]);
         ("collection_data", JObj [("redownload_urls", ex_json_urls)]) ].

Definition ex_record : Item := mkItem "a" 7 12 "Title" "Band" "t1" None.

Definition ex_url_map : gmap string string :=
  {[ "a7" := "https://bandcamp.com/download?id=12" ]}.

(** [q] lies in the directory [dir] or below it. *)
Definition under (dir q : Path) : Prop :=
  fst q = fst dir /\ snd dir `suffix_of` snd q.

(** A computation leaves the file at [q] alone: present or not, with
    the same content, however the computation ends. *)
Definition keeps_file {A} (q : Path) (m : M World A) : Prop :=
  forall w, files (w_fs (snd (m w))) !! q = files (w_fs w) !! q.

(** ** Vocabulary for damaged archives *)

(** The exception that reading a member raises, if any; a directory
    entry is not read. *)
Definition member_raises (m : Member) : option Exn :=
  if m_is_dir m then None
  else match m_fault m with
       | Some (OpenFails e) => Some e
       | Some (ReadFails e) => Some e
       | None => None
       end.


(** An archive whose second member fails its CRC-32 check. *)
Definition ex_damaged_zip (bytes : string) : option (list Member) :=
  Some [ mkMember ["cover.jpg"] false "JFIF" None;
         mkMember ["disc1"; "01.mp3"] false "" (Some (ReadFails BadZipFile));
         mkMember ["disc1"; "02.mp3"] false "ID3" None ].


(** A record the loop of [parse_cookie_list] files in the jar: its
    expiry, if it has one, is zero or not before [now]. *)
Definition kept (now : Q) (c : RawCookie) : Prop :=
  forall e, c_expiry c = Some e -> e = 0 \/ (now <= inject_Z e)%Q.

Definition ex_epoch_cookies : list RawCookie :=
  [ mkCookie "session" "first" "bandcamp.com" "/" None;
    mkCookie "session" "second" "bandcamp.com" "/" (Some 0) ].

(** * Properties *)

(** ** The blob extractor *)

Lemma feed_tags_no_pagedata json_loads (ts : list StartTag) (blob : option json) :
  Forall (fun t => is_pagedata t = false) ts ->
  feed_tags json_loads ts blob = (Ok tt, blob).
Proof.
  induction 1 as [|t ts Ht _ IH]; [reflexivity|].
  cbn [feed_tags]. unfold bind, handle_starttag.
  rewrite Ht. cbn. exact IH.
Qed.

Lemma is_pagedata_false (t : StartTag) :
  ~ (tag_name t = "div" /\ attrs_get "id" (tag_attrs t) = Some "pagedata") ->
  is_pagedata t = false.
Proof.
  intros H. unfold is_pagedata.
  destruct (String.eqb_spec (tag_name t) "div") as [Hd|]; [|reflexivity].
  destruct (attrs_get "id" (tag_attrs t)) as [i|]; [|reflexivity].
  cbn. destruct (String.eqb_spec i "pagedata") as [->|]; [|reflexivity].
  exfalso. apply H. split; [exact Hd | reflexivity].
Qed.

(** C6: a document without a [div] of id [pagedata] is parsed without
    an error, the payload is the empty mapping, [fan_id] is [0] and
    [last_token] is the empty string. *)
Theorem no_pagedata_gives_defaults
  json_loads html_start_tags int_of_string (text : string) :
  Forall (fun t => ~ (tag_name t = "div" /\
                      attrs_get "id" (tag_attrs t) = Some "pagedata"))
         (html_start_tags text) ->
  let r := blob_of json_loads html_start_tags text in
  fst r = Ok tt /\
  data (snd r) = JObj [] /\
  fan_id int_of_string (snd r) = Ok 0 /\
  last_token (snd r) = Ok (JStr "").
Proof.
  intros H. unfold blob_of, feed.
  rewrite feed_tags_no_pagedata.
  - cbn. repeat split.
  - eapply Forall_impl; [exact H|]. intros t Ht. now apply is_pagedata_false.
Qed.

(** ** The join *)

Lemma map_download_urls_map (urls : gmap string string) (l : list Item) :
  map_download_urls urls l =
  map (fun a => set_download_url a (urls !! url_key a)) l.
Proof. induction l as [|a l IH]; cbn; [reflexivity | now rewrite IH]. Qed.

Lemma map_download_urls_length (urls : gmap string string) (l : list Item) :
  length (map_download_urls urls l) = length l.
Proof. rewrite map_download_urls_map. apply length_map. Qed.

Lemma map_download_urls_lookup (urls : gmap string string) (l : list Item) i :
  map_download_urls urls l !! i =
  (fun a => set_download_url a (urls !! url_key a)) <$> (l !! i).
Proof. rewrite map_download_urls_map. apply list_lookup_fmap. Qed.

(** C4: the join keeps the list as it is (length, order, every other
    field) and gives the item at each position the lookup, in the
    mapping, of the key made of its [sale_item_type] followed by
    [str(sale_item_id)], hence a null URL when that key is absent; the
    result depends on the mapping only through these keys. *)
Theorem map_download_urls_join (urls : gmap string string) (l : list Item) :
  length (map_download_urls urls l) = length l /\
  (forall i a, l !! i = Some a ->
     exists a', map_download_urls urls l !! i = Some a' /\
       download_url a' =
         urls !! (sale_item_type a ++ str_int (sale_item_id a))%string /\
       (urls !! (sale_item_type a ++ str_int (sale_item_id a))%string = None ->
        download_url a' = None) /\
       sale_item_type a' = sale_item_type a /\
       sale_item_id a' = sale_item_id a /\
       item_id a' = item_id a /\
       item_title a' = item_title a /\
       band_name a' = band_name a /\
       token a' = token a) /\
  (forall urls' : gmap string string,
     (forall a, a ∈ l ->
        urls' !! (sale_item_type a ++ str_int (sale_item_id a))%string =
        urls !! (sale_item_type a ++ str_int (sale_item_id a))%string) ->
     map_download_urls urls' l = map_download_urls urls l).
Proof.
  split; [apply map_download_urls_length|]. split.
  - intros i a Hi. eexists. rewrite map_download_urls_lookup, Hi. cbn.
    split; [reflexivity|]. unfold url_key. cbn. intuition.
  - intros urls' H. induction l as [|a l IH]; [reflexivity|].
    cbn [map_download_urls]. unfold url_key at 1 2.
    rewrite H by apply list_elem_of_here. f_equal.
    apply IH. intros b Hb. apply H. now apply list_elem_of_further.
Qed.

(** ** The collection walk *)

Lemma last_map_download_urls (urls : gmap string string) (l : list Item) d :
  l <> [] ->
  Some (token (List.last (map_download_urls urls l) d)) =
  token <$> last l.
Proof.
  induction l as [|a l IH]; [congruence|]. intros _.
  destruct l as [|b l]; [reflexivity|].
  change (map_download_urls urls (a :: b :: l))
    with (set_download_url a (urls !! url_key a) :: map_download_urls urls (b :: l)).
  change (List.last (?x :: map_download_urls urls (b :: l)) d)
    with (List.last (map_download_urls urls (b :: l)) d).
  rewrite IH by congruence. reflexivity.
Qed.

(** The walk from an accumulator that is a list. *)
Lemma get_collection_from_list (pre : list Page) :
  forall (e : Page) (rest : list Page) (fan : Z) (tok : string)
         (seed : list Item) (log : list Post) (depth : nat),
  Forall (fun p => page_items p <> [] /\ is_Some (p_redownload_urls p)) pre ->
  page_items e = [] ->
  is_Some (p_redownload_urls e) ->
  (length pre < depth)%nat ->
  get_collection depth fan tok (Some seed) (mkServer (pre ++ e :: rest) log) =
  (Ok (seed ++ concat (map page_joined pre))%list,
   mkServer rest (log ++ map (fun t => mkPost fan t 100) (cursors tok pre))%list).
Proof.
  induction pre as [|p pre IH]; intros e rest fan tok seed log depth Hpre He [u Hu] Hd.
  - destruct depth as [|depth]; [cbn in Hd; lia|].
    cbn [get_collection app]. unfold bind, session_post. cbn.
    unfold page_items in He. rewrite Hu.
    destruct (p_items e) as [l|]; [subst l|]; cbn;
      rewrite app_nil_r; destruct seed; reflexivity.
  - destruct depth as [|depth]; [cbn in Hd; lia|].
    apply Forall_cons in Hpre as [[Hne [up Hup]] Hpre].
    cbn [get_collection app]. unfold bind at 1. unfold session_post at 1. cbn.
    rewrite Hup.
    assert (Hit : match p_items p with Some l => l | None => [] end = page_items p)
      by reflexivity.
    rewrite Hit.
    destruct (map_download_urls up (page_items p)) as [|i items] eqn:Hj.
    { apply (f_equal length) in Hj. rewrite map_download_urls_length in Hj.
      destruct (page_items p); [congruence | discriminate]. }
    rewrite <- Hj.
    assert (Hseed : match seed with [] => [] | _ :: _ => seed end = seed)
      by (destruct seed; reflexivity).
    rewrite Hseed.
    rewrite (IH e rest fan _ _ _ depth Hpre He (ex_intro _ u Hu)) by (cbn in Hd; lia).
    f_equal.
    + unfold page_joined at 2. rewrite Hup. now rewrite <- app_assoc.
    + f_equal. rewrite <- app_assoc. f_equal. cbn. f_equal.
      pose proof (last_map_download_urls up (page_items p) i Hne) as Hl.
      destruct (last (page_items p)) as [x|] eqn:Hx.
      * cbn in Hl. injection Hl as Hl. now rewrite Hl.
      * discriminate Hl.
Qed.

Lemma get_collection_no_seed (depth : nat) (fan : Z) (tok : string) (sv : Server) :
  get_collection depth fan tok None sv = get_collection depth fan tok (Some []) sv.
Proof. destruct depth; reflexivity. Qed.

(** C3: when the server answers with non-empty pages [pre] and then an
    empty page, and the recursion limit exceeds the number of pages,
    the walk returns: the result is the seed (nothing, when no seed is
    given) followed by the joined items of the pages in page order, the
    server has received one request per page, each carrying the token
    of the last item of the page before it, and the pages after the
    empty one are not asked for.  With [pre] empty the accumulator
    comes back unchanged. *)
Theorem get_collection_concat (pre : list Page) (e : Page) (rest : list Page)
  (fan : Z) (tok : string) (albums : option (list Item)) (log : list Post)
  (depth : nat) :
  Forall (fun p => page_items p <> [] /\ is_Some (p_redownload_urls p)) pre ->
  page_items e = [] ->
  is_Some (p_redownload_urls e) ->
  (length pre < depth)%nat ->
  get_collection depth fan tok albums (mkServer (pre ++ e :: rest) log) =
  (Ok (seed_items albums ++ concat (map page_joined pre))%list,
   mkServer rest (log ++ map (fun t => mkPost fan t 100) (cursors tok pre))%list).
Proof.
  intros Hpre He Hu Hd. destruct albums as [seed|]; cbn [seed_items].
  - now apply get_collection_from_list.
  - rewrite get_collection_no_seed. now apply get_collection_from_list.
Qed.

(** ** Resolving the download URL *)

(** C10: when the download page of an item has no [div] of id
    [pagedata], [parse_album] on a fresh downloader requests the page
    and then raises [KeyError] on the field [digital_items]; it returns
    no URL, neither a default nor null. *)
Theorem parse_album_no_pagedata
  json_loads html_start_tags http_get
  (a : Item) (dir : option string) (w : World) (u body : string) :
  download_url a = Some u ->
  http_get (w_net w) u = Some body ->
  Forall (fun t => ~ (tag_name t = "div" /\
                      attrs_get "id" (tag_attrs t) = Some "pagedata"))
         (html_start_tags body) ->
  parse_album json_loads html_start_tags http_get (new_DownloadAlbum a dir) w =
  (Raise (KeyError "digital_items"),
   mkWorld (w_fs w) (w_net w ++ [u])%list (w_out w)).
Proof.
  intros Hu Hb Hno. unfold parse_album, bind, session_get.
  cbn [album new_DownloadAlbum datablob]. rewrite Hu, Hb.
  unfold feed. rewrite feed_tags_no_pagedata.
  - reflexivity.
  - eapply Forall_impl; [exact Hno|]. intros t Ht. now apply is_pagedata_false.
Qed.

(** ** Strings and paths *)

Lemma str_app_assoc (a b c : string) : (a ++ b) ++ c = a ++ b ++ c.
Proof. induction a as [|x a IH]; simpl; [reflexivity | now f_equal]. Qed.

Lemma str_app_nil_r (a : string) : a ++ "" = a.
Proof. induction a as [|x a IH]; simpl; [reflexivity | now f_equal]. Qed.

Lemma str_length_app (a b : string) :
  String.length (a ++ b) = (String.length a + String.length b)%nat.
Proof. induction a as [|x a IH]; simpl; [reflexivity | now f_equal]. Qed.

Lemma has_slash_app (a b : string) :
  has_slash (a ++ b) = has_slash a || has_slash b.
Proof.
  induction a as [|x a IH]; simpl; [reflexivity|].
  rewrite IH. now rewrite orb_assoc.
Qed.

Lemma has_slash_uint (d : Decimal.uint) :
  has_slash (NilEmpty.string_of_uint d) = false.
Proof. induction d; cbn; auto. Qed.

Lemma has_slash_str_int (n : Z) : has_slash (str_int n) = false.
Proof.
  unfold str_int, NilZero.string_of_int, NilZero.string_of_uint.
  destruct (Z.to_int n) as [d|d]; destruct d; cbn; auto using has_slash_uint.
Qed.

Lemma plain_name_long (n : string) :
  has_slash n = false -> (2 < String.length n)%nat -> plain_name n = true.
Proof.
  intros Hs Hl. unfold plain_name. rewrite Hs.
  destruct n as [|a [|b [|c n]]]; cbn in Hl; try lia.
  repeat match goal with
         | |- context [String.eqb ?x ?y] =>
             rewrite (proj2 (String.eqb_neq x y)) by discriminate
         end.
  reflexivity.
Qed.

Lemma zip_name_plain (self : DownloadAlbum) : plain_name (zip_name self) = true.
Proof.
  apply plain_name_long.
  - unfold zip_name. rewrite has_slash_app, has_slash_str_int. reflexivity.
  - unfold zip_name. rewrite str_length_app. cbn. lia.
Qed.

Lemma lock_name_plain (self : DownloadAlbum) : plain_name (lock_name self) = true.
Proof.
  apply plain_name_long.
  - unfold lock_name. cbn. rewrite has_slash_app, has_slash_str_int. reflexivity.
  - unfold lock_name. cbn. rewrite str_length_app. cbn. lia.
Qed.

Lemma push_plain (abs : bool) (n : string) (stk : list string) :
  plain_name n = true -> push abs n stk = n :: stk.
Proof.
  unfold plain_name, push. intros H.
  apply andb_prop in H as [H H3]. apply andb_prop in H as [H H2].
  apply andb_prop in H as [_ H1].
  apply negb_true_iff in H1, H2, H3. now rewrite H1, H2, H3.
Qed.

Lemma scan_app (abs : bool) (a b : string) st :
  scan abs (a ++ b) st = scan abs b (scan abs a st).
Proof.
  revert st. induction a as [|x a IH]; intros st; cbn; [reflexivity|].
  destruct (Ascii.eqb x slash); apply IH.
Qed.

Lemma scan_no_slash (abs : bool) (n : string) st :
  has_slash n = false -> scan abs n st = (fst st, snd st ++ n).
Proof.
  revert st. induction n as [|x n IH]; intros [stk cur] H; cbn in *.
  - now rewrite str_app_nil_r.
  - apply orb_false_iff in H as [Hx Hn]. rewrite Hx.
    rewrite IH by exact Hn. cbn [fst snd]. now rewrite str_app_assoc.
Qed.

Lemma scan_endswith_slash (abs : bool) (d : string) st :
  endswith_slash d = true -> snd (scan abs d st) = "".
Proof.
  revert st. induction d as [|x d IH]; intros st H; [discriminate|].
  destruct d as [|y d].
  - cbn in H. cbn. now rewrite H.
  - change (endswith_slash (String y d) = true) in H.
    cbn [scan]. destruct (Ascii.eqb x slash); now apply IH.
Qed.

Lemma startswith_slash_app (a b : string) :
  a <> "" -> startswith_slash (a ++ b) = startswith_slash a.
Proof. destruct a; [congruence | reflexivity]. Qed.

Lemma plain_name_no_leading_slash (n : string) :
  plain_name n = true -> startswith_slash n = false.
Proof.
  unfold plain_name. intros H.
  destruct n as [|c n]; [reflexivity|]. cbn in *.
  destruct (Ascii.eqb c slash); [discriminate | reflexivity].
Qed.

Lemma plain_name_has_slash (n : string) :
  plain_name n = true -> has_slash n = false.
Proof.
  unfold plain_name. destruct (has_slash n); [discriminate | reflexivity].
Qed.

(** Joining a plain name onto a directory string adds one component to
    the resolved directory. *)
Lemma resolve_join_plain (d n : string) :
  plain_name n = true ->
  resolve (path_join d n) = (fst (resolve d), n :: snd (resolve d)).
Proof.
  intros Hn. pose proof (plain_name_no_leading_slash n Hn) as H0.
  pose proof (plain_name_has_slash n Hn) as Hs.
  unfold path_join. rewrite H0.
  destruct (String.eqb_spec d "") as [->|Hd]; cbn [orb].
  - unfold resolve. cbn [append]. rewrite H0.
    rewrite scan_no_slash by exact Hs. cbn.
    now rewrite push_plain.
  - destruct (endswith_slash d) eqn:He.
    + unfold resolve. rewrite startswith_slash_app by exact Hd.
      rewrite scan_app, scan_no_slash by exact Hs.
      rewrite (scan_endswith_slash _ d _ He). cbn.
      now rewrite push_plain.
    + unfold resolve. rewrite startswith_slash_app by exact Hd.
      rewrite scan_app. cbn [append scan].
      change (Ascii.eqb "/" slash) with true. cbn match.
      rewrite scan_no_slash by exact Hs. cbn.
      now rewrite push_plain.
Qed.

(** ** The downloader's paths *)

Lemma plain_name_not_dotdot (n : string) :
  plain_name n = true -> String.eqb n ".." = false.
Proof.
  unfold plain_name. intros H. apply andb_prop in H as [_ H].
  now apply negb_true_iff in H.
Qed.

Lemma parent_plain (abs : bool) (n : string) (stk : list string) :
  plain_name n = true -> parent (abs, n :: stk) = (abs, stk).
Proof.
  intros H. unfold parent. cbn. now rewrite (plain_name_not_dotdot n H).
Qed.

Lemma lock_of_eq (self : DownloadAlbum) :
  lock_of self = (fst (dir_of self), lock_name self :: snd (dir_of self)).
Proof. apply resolve_join_plain, lock_name_plain. Qed.

Lemma zip_of_eq (self : DownloadAlbum) :
  zip_of self = (fst (dir_of self), zip_name self :: snd (dir_of self)).
Proof. apply resolve_join_plain, zip_name_plain. Qed.

Lemma parent_lock_of (self : DownloadAlbum) : parent (lock_of self) = dir_of self.
Proof.
  rewrite lock_of_eq, parent_plain by apply lock_name_plain.
  now destruct (dir_of self).
Qed.

Lemma parent_zip_of (self : DownloadAlbum) : parent (zip_of self) = dir_of self.
Proof.
  rewrite zip_of_eq, parent_plain by apply zip_name_plain.
  now destruct (dir_of self).
Qed.

Lemma download_dir_exists (self : DownloadAlbum) (w : World) :
  path_exists (w_fs w) (dir_of self) = true ->
  download_dir self w = (Ok (dir_string self), w).
Proof.
  intros H. unfold download_dir, bind, os_path_exists.
  fold (dir_of self). now rewrite H.
Qed.

(** ** Skipping a fetched item *)

(** The fetch operation on its own: when the lock marker of the item
    exists, in a directory that exists, [fetch_album] returns without
    an error, requests nothing over the network, leaves the file system
    as it was and prints the notice that the album is skipped. *)
Theorem fetch_album_locked_skips http_get zip_members
  (self : DownloadAlbum) (w : World) :
  path_exists (w_fs w) (lock_of self) = true ->
  is_dir (w_fs w) (parent (lock_of self)) = true ->
  fetch_album http_get zip_members self w =
  (Ok tt,
   mkWorld (w_fs w) (w_net w)
     (w_out w ++ [("Skipping already fetched album, " ++ album_name self)%string])%list).
Proof.
  intros Hlock Hdir. rewrite parent_lock_of in Hdir.
  assert (Hex : path_exists (w_fs w) (dir_of self) = true)
    by (unfold path_exists; now rewrite Hdir).
  unfold fetch_album, locked, lock_path.
  unfold bind at 1. unfold bind at 1. unfold bind at 1.
  rewrite download_dir_exists by exact Hex.
  unfold ret, os_path_exists. fold (lock_of self). rewrite Hlock.
  reflexivity.
Qed.

Lemma parse_album_frame json_loads html_start_tags http_get
  (self : DownloadAlbum) (w : World) :
  let r := parse_album json_loads html_start_tags http_get self w in
  w_fs (snd r) = w_fs w /\
  w_out (snd r) = w_out w /\
  w_net (snd r) =
    (w_net w ++ match download_url (album self) with
                | Some u => [u]
                | None => []
                end)%list /\
  (forall self', fst r = Ok self' ->
     album self' = album self /\ base_dir self' = base_dir self).
Proof.
  unfold parse_album, bind, session_get, raise, lift_result, ret.
  destruct (download_url (album self)) as [u|]; cbn.
  2: { rewrite app_nil_r. repeat split; discriminate. }
  destruct (http_get (w_net w) u) as [body|]; cbn.
  2: { repeat split; discriminate. }
  destruct (feed json_loads html_start_tags body (datablob self)) as [[[]|e] blob]; cbn.
  2: { repeat split; discriminate. }
  destruct (result_bind _ _) as [url|e]; cbn; repeat split;
    try discriminate; match goal with H : Ok _ = Ok _ |- _ =>
                        inversion H; reflexivity end.
Qed.

Lemma lock_of_same (self self' : DownloadAlbum) :
  album self' = album self -> base_dir self' = base_dir self ->
  lock_of self' = lock_of self.
Proof.
  intros Ha Hb. unfold lock_of, dir_string, lock_name. now rewrite Ha, Hb.
Qed.

(** C1, as the code has it: for an item whose lock marker exists (in a
    directory that exists), [fetch_album] requests nothing, changes no
    file and prints the skip notice; one turn of the main loop, which
    resolves the URL before it fetches, leaves the file system as it
    was too and prints the notice when the resolution succeeds, but
    its only request is the one for the item's download page. *)
Theorem locked_item_is_skipped
  json_loads html_start_tags http_get zip_members
  (music_directory : string) (a : Item) (w : World) :
  let self := new_DownloadAlbum a (Some music_directory) in
  path_exists (w_fs w) (lock_of self) = true ->
  is_dir (w_fs w) (parent (lock_of self)) = true ->
  (forall self' : DownloadAlbum,
     album self' = a -> base_dir self' = base_dir self ->
     fetch_album http_get zip_members self' w =
     (Ok tt,
      mkWorld (w_fs w) (w_net w)
        (w_out w ++ [("Skipping already fetched album, " ++ album_name self)%string])%list)) /\
  (let r := process_album json_loads html_start_tags http_get zip_members
              music_directory a w in
   w_fs (snd r) = w_fs w /\
   w_net (snd r) =
     (w_net w ++ match download_url a with Some u => [u] | None => [] end)%list /\
   (fst r = Ok tt ->
    w_out (snd r) =
      (w_out w ++ [("Skipping already fetched album, " ++ album_name self)%string])%list)).
Proof.
  intros self Hlock Hdir. split.
  - intros self' Ha Hb.
    rewrite fetch_album_locked_skips.
    + unfold album_name. rewrite Ha. reflexivity.
    + now rewrite (lock_of_same self self').
    + now rewrite (lock_of_same self self').
  - cbn zeta. unfold process_album, bind.
    pose proof (parse_album_frame json_loads html_start_tags http_get self w) as Hp.
    cbn zeta in Hp. fold self.
    destruct (parse_album json_loads html_start_tags http_get self w) as [[self'|e] w1].
    + cbn [fst snd] in Hp. destruct Hp as (Hfs & Hout & Hnet & Hsame).
      destruct (Hsame self' eq_refl) as [Ha Hb].
      rewrite fetch_album_locked_skips.
      * cbn [fst snd]. rewrite Hfs, Hnet, Hout. unfold album_name. rewrite Ha.
        repeat split.
      * rewrite (lock_of_same self self'), Hfs by assumption. exact Hlock.
      * rewrite (lock_of_same self self'), Hfs by assumption. exact Hdir.
    + cbn [fst snd] in *. destruct Hp as (Hfs & Hout & Hnet & _).
      repeat split; try assumption. discriminate.
Qed.

(** ** Which paths a file-system operation can bring into existence *)




Lemma path_exists_open_w (p q : Path) (fs : FS) :
  q <> p -> path_exists (snd (open_w p fs)) q = path_exists fs q.
Proof.
  intros Hne. unfold open_w.
  destruct (is_dir fs p); [reflexivity|].
  destruct (negb (is_dir fs (parent p))); [reflexivity|].
  cbn [snd]. unfold path_exists, is_dir, is_file. cbn.
  now rewrite lookup_insert_ne.
Qed.


Lemma read_file_state (p : Path) (fs : FS) :
  snd (read_file p fs) = fs.
Proof.
  unfold read_file. destruct (is_dir fs p); [reflexivity|].
  now destruct (files fs !! p).
Qed.





(** ** The lock marker is none of the other paths of the downloader *)

Lemma last_ascii_app (s t : string) :
  t <> "" -> last_ascii (s ++ t) = last_ascii t.
Proof.
  intros Ht. induction s as [|c s IH]; [reflexivity|].
  cbn [append last_ascii]. rewrite <- IH.
  destruct (s ++ t) eqn:E; [|reflexivity].
  destruct s; cbn in E; [congruence | discriminate].
Qed.

Lemma push_long (abs : bool) (n : string) (stk : list string) :
  (2 < String.length n)%nat -> push abs n stk = n :: stk.
Proof.
  intros Hl. unfold push.
  destruct n as [|a [|b [|c n]]]; cbn in Hl; try lia.
  repeat match goal with
         | |- context [String.eqb ?x ?y] =>
             rewrite (proj2 (String.eqb_neq x y)) by discriminate
         end.
  reflexivity.
Qed.

Lemma resolve_mp3 (pre : string) :
  exists cur stk, snd (resolve (pre ++ ".mp3")) = (cur ++ ".mp3") :: stk.
Proof.
  unfold resolve. cbn [snd]. rewrite scan_app.
  rewrite (scan_no_slash _ ".mp3") by reflexivity. cbn [fst snd].
  eexists _, _. apply push_long. rewrite str_length_app. cbn. lia.
Qed.

Lemma mp3_of_head (self : DownloadAlbum) :
  exists cur stk, snd (mp3_of self) = (cur ++ ".mp3") :: stk.
Proof.
  unfold mp3_of, path_join, mp3_name.
  destruct (startswith_slash _); [apply resolve_mp3|].
  destruct (_ || _)%bool.
  - rewrite <- str_app_assoc. apply resolve_mp3.
  - rewrite <- !str_app_assoc. apply resolve_mp3.
Qed.






(** ** The steps before [lock] keep the marker absent *)



Lemma keeps_print (q : Path) (line : string) : keeps_absent q (print line).
Proof. intros w Hw. exact Hw. Qed.




Lemma download_dir_returns (self : DownloadAlbum) (w : World) (d : string) :
  fst (download_dir self w) = Ok d -> d = dir_string self.
Proof.
  unfold download_dir, bind, os_path_exists, with_fs, ret.
  destruct (negb _); cbn [fst snd].
  - match goal with
    | |- context [makedirs ?p ?f] => destruct (makedirs p f) as [[[]|e] fs1]
    end; cbn; congruence.
  - cbn. congruence.
Qed.


Lemma download_path_returns (self : DownloadAlbum) (w : World) (p : string) :
  fst (download_path self w) = Ok p -> resolve p = zip_of self.
Proof.
  unfold download_path, bind, ret.
  pose proof (download_dir_returns self w) as Hd.
  destruct (download_dir self w) as [[d|e] w1]; cbn in *; [|discriminate].
  intros [= <-]. now rewrite (Hd d eq_refl).
Qed.



Lemma keeps_try_except {A} (q : Path) (body handler : M World A)
  (caught : Exn -> bool) :
  keeps_absent q body -> keeps_absent q handler ->
  keeps_absent q (try_except body caught handler).
Proof.
  intros Hb Hh w Hw. unfold try_except. specialize (Hb w Hw).
  destruct (body w) as [[a|e] w1]; cbn [fst snd] in *; [exact Hb|].
  destruct (caught e); [now apply Hh | exact Hb].
Qed.



(** ** The lock marker comes last *)

Lemma lock_path_returns (self : DownloadAlbum) (w : World) (p : string) :
  fst (lock_path self w) = Ok p -> resolve p = lock_of self.
Proof.
  unfold lock_path, bind, ret.
  pose proof (download_dir_returns self w) as Hd.
  destruct (download_dir self w) as [[d|e] w1]; cbn in *; [|discriminate].
  intros [= <-]. now rewrite (Hd d eq_refl).
Qed.



Lemma locked_reads (self : DownloadAlbum) (w : World) (b : bool) :
  fst (locked self w) = Ok b ->
  b = path_exists (w_fs (snd (locked self w))) (lock_of self).
Proof.
  unfold locked, bind, os_path_exists.
  pose proof (lock_path_returns self w) as Hp.
  destruct (lock_path self w) as [[p|e] w1]; cbn in *; [|discriminate].
  intros [= <-]. now rewrite (Hp p eq_refl).
Qed.




(** ** The cookie jar *)

Lemma before_spec (e : Z) (now : Q) :
  before e now = true <-> (inject_Z e < now)%Q.
Proof.
  unfold before. rewrite negb_true_iff. split.
  - intros H. apply Qnot_le_lt. intros Hle.
    apply Qle_bool_iff in Hle. congruence.
  - intros H. destruct (Qle_bool now (inject_Z e)) eqn:E; [|reflexivity].
    apply Qle_bool_iff in E. exfalso. now apply (Qlt_not_le _ _ H).
Qed.

Lemma unexpired_not_skipped (now : Q) (c : RawCookie) :
  unexpired now c -> skipped now c = false.
Proof.
  unfold skipped. intros [-> | (e & -> & He)]; [reflexivity|].
  destruct (before e now) eqn:E; [|apply andb_false_r].
  apply before_spec in E. exfalso. now apply (Qlt_not_le _ _ E).
Qed.

Lemma skipped_spec (now : Q) (c : RawCookie) (e : Z) :
  skipped now c = false -> c_expiry c = Some e ->
  e = 0 \/ ~ (inject_Z e < now)%Q.
Proof.
  unfold skipped. intros H He. rewrite He in H.
  apply andb_false_iff in H as [H|H].
  - left. apply negb_false_iff in H. now apply Z.eqb_eq.
  - right. intros Hlt. apply before_spec in Hlt. congruence.
Qed.

(** Every entry of the jar was put there by a record that the loop did
    not skip, or was in the jar before. *)
Lemma fold_add_cookie_origin (now : Q) (cookies : list RawCookie) :
  forall (jar : gmap CookieKey (string * option Z)) k x,
  fold_left (add_cookie now) cookies jar !! k = Some x ->
  jar !! k = Some x \/
  exists c, c ∈ cookies /\ skipped now c = false /\
            cookie_key c = k /\ x = (c_value c, c_expiry c).
Proof.
  induction cookies as [|c cookies IH]; intros jar k x H; [now left|].
  cbn [fold_left] in H. apply IH in H as [H | (c' & Hin & Hc')].
  - unfold add_cookie in H. destruct (skipped now c) eqn:Hs; [now left|].
    destruct (decide (cookie_key c = k)) as [Hk|Hk].
    + rewrite Hk, lookup_insert_eq in H. injection H as <-.
      right. exists c. split; [apply list_elem_of_here | auto].
    + rewrite lookup_insert_ne in H by exact Hk. now left.
  - right. exists c'. split; [now apply list_elem_of_further | exact Hc'].
Qed.

(** Records that are skipped or filed elsewhere leave a key alone. *)
Lemma fold_add_cookie_other (now : Q) (cookies : list RawCookie) :
  forall (jar : gmap CookieKey (string * option Z)) k,
  (forall c, c ∈ cookies -> cookie_key c = k -> skipped now c = true) ->
  fold_left (add_cookie now) cookies jar !! k = jar !! k.
Proof.
  induction cookies as [|c cookies IH]; intros jar k H; [reflexivity|].
  cbn [fold_left]. rewrite IH.
  - unfold add_cookie. destruct (skipped now c) eqn:Hs; [reflexivity|].
    apply lookup_insert_ne. intros Hk.
    rewrite (H c (list_elem_of_here _ _) Hk) in Hs. discriminate.
  - intros c' Hin. apply H. now apply list_elem_of_further.
Qed.

Lemma kept_not_skipped (now : Q) (c : RawCookie) :
  kept now c <-> skipped now c = false.
Proof.
  unfold kept, skipped. destruct (c_expiry c) as [e|]; [|split; [reflexivity|discriminate]].
  split.
  - intros H. destruct (H e eq_refl) as [->|Hle]; [reflexivity|].
    destruct (before e now) eqn:E; [|apply andb_false_r].
    apply before_spec in E. exfalso. now apply (Qlt_not_le _ _ E).
  - intros H e' [= <-]. apply andb_false_iff in H as [H|H].
    + left. apply negb_false_iff in H. now apply Z.eqb_eq.
    + right. apply Qnot_lt_le. intros Hlt. apply before_spec in Hlt. congruence.
Qed.

Lemma unexpired_kept (now : Q) (c : RawCookie) : unexpired now c -> kept now c.
Proof.
  intros [H | (e & H & Hle)] e' He'; rewrite H in He'; [discriminate|].
  injection He' as <-. now right.
Qed.

(** Among the records filed under a key, one is the last. *)
Lemma last_kept_split (now : Q) (k : CookieKey) (cookies : list RawCookie) :
  (exists c, c ∈ cookies /\ cookie_key c = k /\ skipped now c = false) ->
  exists l1 c' l2,
    cookies = (l1 ++ c' :: l2)%list /\
    cookie_key c' = k /\ skipped now c' = false /\
    (forall c'', c'' ∈ l2 -> cookie_key c'' = k -> skipped now c'' = true).
Proof.
  induction cookies as [|a l IH]; intros (c & Hin & Hk & Hs).
  { now apply elem_of_nil in Hin. }
  destruct (decide (Exists (fun c => cookie_key c = k /\ skipped now c = false) l))
    as [Hex|Hno].
  - apply Exists_exists in Hex as (c0 & Hin0 & Hk0 & Hs0).
    destruct IH as (l1 & c' & l2 & -> & H1 & H2 & H3); [now exists c0|].
    exists (a :: l1), c', l2. auto.
  - assert (Hl : forall c'', c'' ∈ l -> cookie_key c'' = k -> skipped now c'' = true).
    { intros c'' Hin'' Hk''. destruct (skipped now c'') eqn:E; [reflexivity|].
      exfalso. apply Hno. apply Exists_exists. now exists c''. }
    apply elem_of_cons in Hin as [->|Hin].
    + exists [], a, l. auto.
    + rewrite (Hl c Hin Hk) in Hs. discriminate.
Qed.

Lemma parse_cookie_list_last (now : Q) (l1 l2 : list RawCookie) (c : RawCookie) :
  skipped now c = false ->
  (forall c', c' ∈ l2 -> cookie_key c' = cookie_key c -> skipped now c' = true) ->
  parse_cookie_list now (l1 ++ c :: l2) !! cookie_key c
  = Some (c_value c, c_expiry c).
Proof.
  intros Hc Hlater. unfold parse_cookie_list.
  rewrite fold_left_app. cbn [fold_left].
  rewrite fold_add_cookie_other by exact Hlater.
  unfold add_cookie at 1. rewrite Hc. apply lookup_insert_eq.
Qed.

(** C2, as the code has it: every entry of the store is the value and
    expiry of a record of the list, filed under its (domain, path,
    name), and its expiry is never one that is non-zero and before
    [now].  The entry under a key is the value and expiry of the last
    record of that key that the loop keeps.  So a record without an
    expiry or with one not before [now] has its key in the store, with
    its own value when no later record that is kept has the same key,
    and with the value of the last kept record of its key otherwise. *)
Theorem parse_cookie_list_store (now : Q) (cookies : list RawCookie) :
  let jar := parse_cookie_list now cookies in
  (forall k v oe, jar !! k = Some (v, oe) ->
     (exists c, c ∈ cookies /\ cookie_key c = k /\
                c_value c = v /\ c_expiry c = oe) /\
     (forall e, oe = Some e -> e = 0 \/ ~ (inject_Z e < now)%Q)) /\
  (forall l1 c l2, cookies = (l1 ++ c :: l2)%list ->
     kept now c ->
     (forall c', c' ∈ l2 -> cookie_key c' = cookie_key c -> ~ kept now c') ->
     jar !! cookie_key c = Some (c_value c, c_expiry c)) /\
  (forall c, c ∈ cookies -> unexpired now c ->
     exists l1 c' l2,
       cookies = (l1 ++ c' :: l2)%list /\
       cookie_key c' = cookie_key c /\
       kept now c' /\
       (forall c'', c'' ∈ l2 -> cookie_key c'' = cookie_key c -> ~ kept now c'') /\
       jar !! cookie_key c = Some (c_value c', c_expiry c')).
Proof.
  cbn zeta. split; [|split].
  - intros k v oe H. unfold parse_cookie_list in H.
    apply fold_add_cookie_origin in H as [H | (c & Hin & Hs & Hk & Hx)].
    { rewrite lookup_empty in H. discriminate. }
    injection Hx as -> ->. split.
    + exists c. auto.
    + intros e He. now apply (skipped_spec now c).
  - intros l1 c l2 -> Hc Hlater.
    apply parse_cookie_list_last; [now apply kept_not_skipped|].
    intros c' Hin Hk. destruct (skipped now c') eqn:E; [reflexivity|].
    exfalso. apply (Hlater c' Hin Hk). now apply kept_not_skipped.
  - intros c Hin Hc.
    destruct (last_kept_split now (cookie_key c) cookies)
      as (l1 & c' & l2 & -> & Hk & Hs & Hlater).
    { exists c. split; [exact Hin|]. split; [reflexivity|].
      now apply unexpired_not_skipped. }
    exists l1, c', l2. split; [reflexivity|]. split; [exact Hk|].
    split; [now apply kept_not_skipped|]. split.
    + intros c'' Hin'' Hk'' Hkept. apply kept_not_skipped in Hkept.
      rewrite (Hlater c'' Hin'' Hk'') in Hkept. discriminate.
    + rewrite <- Hk. apply parse_cookie_list_last; [exact Hs|].
      intros c'' Hin'' Hk''. apply Hlater; [exact Hin''|congruence].
Qed.

Lemma parse_cookie_list_store_witness :
  parse_cookie_list 100 ex_epoch_cookies !! ("bandcamp.com", "/", "session")
  = Some ("second", Some 0).
Proof.
  destruct (parse_cookie_list_store 100 ex_epoch_cookies) as (_ & H & _).
  apply (H [mkCookie "session" "first" "bandcamp.com" "/" None]
           (mkCookie "session" "second" "bandcamp.com" "/" (Some 0)) []).
  - reflexivity.
  - intros e [= <-]. now left.
  - intros c' Hin. now apply elem_of_nil in Hin.
Defined.

(** C2 as stated fails where two records share a key: the store holds
    the later value only. *)
Lemma shared_key_keeps_last :
  ~ store_as_specified 100 ex_session_cookies
      (parse_cookie_list 100 ex_session_cookies).
Proof.
  intros [_ H].
  specialize (H (mkCookie "session" "old" "bandcamp.com" "/" None)).
  assert (Hin : mkCookie "session" "old" "bandcamp.com" "/" None ∈ ex_session_cookies)
    by apply list_elem_of_here.
  specialize (H Hin (or_introl eq_refl)).
  vm_compute in H. discriminate H.
Qed.

(** A record whose expiry is the epoch itself counts as one without an
    expiry: [0] is false in the loop's condition. *)
Lemma epoch_expiry_is_kept :
  parse_cookie_list 1700000000 [ex_epoch_cookie] !! cookie_key ex_epoch_cookie
  = Some ("x", Some 0).
Proof. vm_compute. reflexivity. Qed.

(** ** The browser is released *)

Section LoginProofs.

Variable browser_fails : list BrowserAction -> BrowserAction -> option Exn.
Variable browser_cookies : list BrowserAction -> list RawCookie.
Variable json_dump : list RawCookie -> string.
Variable json_load : string -> option (list RawCookie).
Variable now_start now_login : Q.

Lemma logs_only_act (P : BrowserAction -> Prop) (a : BrowserAction) :
  P a -> logs_only P (act browser_fails a).
Proof.
  intros Ha w. unfold act.
  destruct (browser_fails _ a); cbn; (split; [reflexivity|]);
    exists [a]; (split; [reflexivity | now constructor]).
Qed.

Lemma logs_only_bind {A B} (P : BrowserAction -> Prop)
  (m : M LoginWorld A) (k : A -> M LoginWorld B) :
  logs_only P m -> (forall a, logs_only P (k a)) -> logs_only P (bind m k).
Proof.
  intros Hm Hk w. unfold bind. destruct (Hm w) as (Hfs & steps & Hlog & HP).
  destruct (m w) as [[a|e] w1]; cbn [fst snd] in *.
  - destruct (Hk a w1) as (Hfs2 & steps2 & Hlog2 & HP2).
    split; [congruence|]. exists (steps ++ steps2)%list. split.
    + rewrite Hlog2, Hlog, map_app. now rewrite <- List.app_assoc.
    + now apply Forall_app.
  - split; [exact Hfs|]. now exists steps.
Qed.

Lemma logs_only_login_steps (username password : string) :
  logs_only script_action
    (login_steps browser_fails browser_cookies username password).
Proof.
  unfold login_steps, wait_for_id, get_cookies.
  repeat (apply logs_only_bind;
          [apply logs_only_act; split; discriminate | intros _]).
  intros w. cbn. split; [reflexivity|]. exists []. split.
  - now rewrite app_nil_r.
  - constructor.
Qed.

Lemma cached_jar_state (w : LoginWorld) :
  snd (cached_jar json_load now_start w) = w.
Proof.
  unfold cached_jar.
  repeat match goal with
         | |- context [if ?b then _ else _] => destruct b
         | |- context [match ?x with _ => _ end] => destruct x
         end; reflexivity.
Qed.

(** C9: every run of [bandcamp_login] adds to the log one of three
    things.  Nothing: the cache was used, or reading it failed.  The
    start of the browser alone: the browser did not start, there is
    nothing to release and the error propagates.  Or the start, then
    actions of the login script, then [Quit], then at most the write of
    the cache: the browser is released exactly once, after its last
    use; when the script fails -- a timeout of a wait included --
    [Quit] still runs, the call ends in an exception and neither the
    cache nor any other file is written. *)
Theorem browser_always_quit (username password : string) (w : LoginWorld) :
  let r := bandcamp_login browser_fails browser_cookies json_dump json_load
             now_start now_login username password w in
  let w1 := snd (act browser_fails Firefox w) in
  l_log (snd r) = l_log w \/
  (l_log (snd r) = (l_log w ++ [EvBrowser Firefox])%list /\
   exists e, browser_fails (browser_actions (l_log w)) Firefox = Some e /\
             fst r = Raise e) \/
  (exists steps rest,
     l_log (snd r) =
       (l_log w ++ EvBrowser Firefox :: map EvBrowser steps
                ++ EvBrowser Quit :: rest)%list /\
     Forall script_action steps /\
     (rest = [] \/ rest = [EvOpenWrite ".cookies"]) /\
     (forall e,
        fst (login_steps browser_fails browser_cookies username password w1)
        = Raise e ->
        (exists e', fst r = Raise e') /\ rest = [] /\ l_fs (snd r) = l_fs w)).
Proof.
  cbn zeta.
  remember (bandcamp_login browser_fails browser_cookies json_dump json_load
              now_start now_login username password w) as r eqn:Hr.
  unfold bandcamp_login in Hr. unfold bind at 1 in Hr.
  pose proof (cached_jar_state w) as Hc.
  destruct (cached_jar json_load now_start w) as [[[jar|]|e] w']; cbn [snd] in Hc;
    subst w'; [subst r; now left | | subst r; now left].
  unfold bind at 1 in Hr. unfold act at 1 in Hr. unfold act at 1.
  destruct (browser_fails (browser_actions (l_log w)) Firefox) as [e|] eqn:Hff.
  { right. left. subst r. cbn. split; [reflexivity|]. now exists e. }
  right. right. cbn [snd].
  set (w1 := mkLoginWorld (l_fs w) (l_log w ++ [EvBrowser Firefox])%list) in *.
  unfold bind at 1 in Hr. unfold try_finally in Hr.
  destruct (logs_only_login_steps username password w1) as (Hfs & steps & Hlog & HP).
  destruct (login_steps browser_fails browser_cookies username password w1)
    as [rb wb]; cbn [fst snd] in *.
  unfold act at 1 in Hr.
  assert (Hpre : ((l_log wb ++ [EvBrowser Quit]) =
                  l_log w ++ EvBrowser Firefox :: map EvBrowser steps
                        ++ [EvBrowser Quit])%list).
  { rewrite Hlog. cbn [l_log w1]. rewrite <- !List.app_assoc. reflexivity. }
  destruct (browser_fails (browser_actions (l_log wb)) Quit) as [eq|].
  { exists steps, []. subst r. cbn [fst snd l_log l_fs].
    split; [exact Hpre|]. split; [exact HP|]. split; [now left|].
    intros e0 _. split; [now exists eq|]. split; [reflexivity | exact Hfs]. }
  destruct rb as [cs|e].
  - unfold bind, write_cache, ret in Hr. cbn [l_fs l_log] in Hr.
    destruct ((open_w (resolve ".cookies");;;
               write_block (resolve ".cookies") (json_dump cs)) (l_fs wb))
      as [[[]|e] fs'];
      exists steps, [EvOpenWrite ".cookies"]; subst r; cbn [fst snd l_log];
      (split; [rewrite Hpre, <- List.app_assoc; f_equal; cbn [app]; f_equal;
               now rewrite <- List.app_assoc|]);
      (split; [exact HP|]); (split; [now right | discriminate]).
  - exists steps, []. subst r. cbn [fst snd l_log l_fs].
    split; [exact Hpre|]. split; [exact HP|]. split; [now left|].
    intros e0 _. split; [now exists e|]. split; [reflexivity | exact Hfs].
Qed.

End LoginProofs.

(** ** The auth cache *)

Section CacheProofs.

Variable browser_fails : list BrowserAction -> BrowserAction -> option Exn.
Variable browser_cookies : list BrowserAction -> list RawCookie.
Variable json_dump : list RawCookie -> string.
Variable json_load : string -> option (list RawCookie).
Variable now_start now_login : Q.

Lemma jar_get_holds (jar : gmap CookieKey (string * option Z)) (name : string) :
  holds_cookie jar name ->
  exists v, jar_get jar name = Ok v /\ value_truthy v = true.
Proof.
  intros (kv & Hkv & Hv). unfold jar_get. rewrite Hkv.
  eexists. split; [reflexivity|]. cbn.
  apply negb_true_iff, String.eqb_neq, Hv.
Qed.

Lemma jar_get_lacks (jar : gmap CookieKey (string * option Z)) (name : string) :
  lacks_cookie jar name ->
  exists v, jar_get jar name = Ok v /\ value_truthy v = false.
Proof.
  unfold jar_get. intros [H | (kv & H & Hv)]; rewrite H.
  - now exists None.
  - eexists. split; [reflexivity|]. cbn. now rewrite Hv.
Qed.

Lemma cached_jar_hit (w : LoginWorld) (text : string) (cookies : list RawCookie) :
  path_exists (l_fs w) (resolve ".cookies") = true ->
  fst (read_file (resolve ".cookies") (l_fs w)) = Ok text ->
  json_load text = Some cookies ->
  holds_cookie (parse_cookie_list now_start cookies) "client_id" ->
  holds_cookie (parse_cookie_list now_start cookies) "identity" ->
  cached_jar json_load now_start w =
  (Ok (Some (parse_cookie_list now_start cookies)), w).
Proof.
  intros He Hr Hj H1 H2. unfold cached_jar. rewrite He, Hr, Hj.
  destruct (jar_get_holds _ _ H1) as (v1 & -> & ->).
  destruct (jar_get_holds _ _ H2) as (v2 & -> & ->).
  reflexivity.
Qed.

Lemma cached_jar_miss (w : LoginWorld) :
  path_exists (l_fs w) (resolve ".cookies") = false \/
  (exists text cookies,
     path_exists (l_fs w) (resolve ".cookies") = true /\
     fst (read_file (resolve ".cookies") (l_fs w)) = Ok text /\
     json_load text = Some cookies /\
     (lacks_cookie (parse_cookie_list now_start cookies) "client_id" \/
      (holds_cookie (parse_cookie_list now_start cookies) "client_id" /\
       lacks_cookie (parse_cookie_list now_start cookies) "identity"))) ->
  cached_jar json_load now_start w = (Ok None, w) /\
  is_dir (l_fs w) (resolve ".cookies") = false.
Proof.
  unfold cached_jar. intros [He | (text & cookies & He & Hr & Hj & Hc)].
  - rewrite He. split; [reflexivity|].
    unfold path_exists in He. now apply orb_false_iff in He as [He _].
  - rewrite He, Hr, Hj. split.
    + destruct Hc as [H1 | [H1 H2]].
      * destruct (jar_get_lacks _ _ H1) as (v1 & -> & ->). reflexivity.
      * destruct (jar_get_holds _ _ H1) as (v1 & -> & ->).
        destruct (jar_get_lacks _ _ H2) as (v2 & -> & ->). reflexivity.
    + unfold read_file in Hr.
      destruct (is_dir (l_fs w) (resolve ".cookies")); [discriminate | reflexivity].
Qed.

Lemma logs_only_try_finally {A} (P : BrowserAction -> Prop)
  (body : M LoginWorld A) (fin : M LoginWorld unit) :
  logs_only P body -> logs_only P fin -> logs_only P (try_finally body fin).
Proof.
  intros Hb Hf w. unfold try_finally.
  destruct (Hb w) as (Hfs & steps & Hlog & HP).
  destruct (body w) as [r w1]; cbn [fst snd] in *.
  destruct (Hf w1) as (Hfs2 & steps2 & Hlog2 & HP2).
  destruct (fin w1) as [[[]|e] w2]; cbn [fst snd] in *;
    (split; [congruence|]); exists (steps ++ steps2)%list;
    (split; [rewrite Hlog2, Hlog, map_app; now rewrite <- List.app_assoc
            | now apply Forall_app]).
Qed.

Lemma fresh_login_frame (username password : string) (w : LoginWorld) :
  l_fs (snd ((act browser_fails Firefox ;;;
              try_finally (login_steps browser_fails browser_cookies
                             username password)
                          (act browser_fails Quit)) w)) = l_fs w.
Proof.
  apply (logs_only_bind (fun _ => True)).
  - now apply logs_only_act.
  - intros _. apply logs_only_try_finally.
    + intros w0. destruct (logs_only_login_steps browser_fails browser_cookies
                             username password w0) as (H1 & steps & H2 & _).
      split; [exact H1|]. exists steps. split; [exact H2|].
      apply Forall_forall. auto.
    + now apply logs_only_act.
Qed.

Lemma write_cache_result (cookies : list RawCookie) (w : LoginWorld) :
  is_dir (l_fs w) (resolve ".cookies") = false ->
  let r := write_cache json_dump cookies w in
  fst r = Ok tt /\
  files (l_fs (snd r)) !! resolve ".cookies" = Some (json_dump cookies) /\
  dirs (l_fs (snd r)) = dirs (l_fs w) /\
  l_log (snd r) = (l_log w ++ [EvOpenWrite ".cookies"])%list.
Proof.
  intros Hd. cbn zeta. unfold write_cache, bind, open_w. rewrite Hd.
  change (is_dir (l_fs w) (parent (resolve ".cookies"))) with true.
  cbn [negb]. unfold write_block, modify. cbn [fst snd files dirs l_fs l_log].
  rewrite lookup_insert_eq. cbn [files dirs].
  rewrite lookup_insert_eq. repeat split.
Qed.

(** C7, as the code has it.  When the cache file exists, decodes, and
    the store built from it holds exactly one cookie named [client_id]
    and exactly one named [identity], both with a non-empty value,
    [bandcamp_login] returns that store at once: no browser action, no
    file written.  When the cache file does not exist, or the store
    built from it has no [client_id] cookie or an empty one, or has a
    good [client_id] but no [identity] or an empty one, the browser is
    started; if the login then succeeds, the cookie list it yields is
    what the cache file holds afterwards and the store returned is
    built from it; if it fails, the error propagates and the cache is
    left as it was. *)
Theorem login_uses_cache_or_browser (username password : string)
  (w : LoginWorld) :
  let login := bandcamp_login browser_fails browser_cookies json_dump json_load
                 now_start now_login username password in
  let fresh := (act browser_fails Firefox ;;;
                try_finally (login_steps browser_fails browser_cookies
                               username password)
                            (act browser_fails Quit)) in
  (forall text cookies,
     path_exists (l_fs w) (resolve ".cookies") = true ->
     fst (read_file (resolve ".cookies") (l_fs w)) = Ok text ->
     json_load text = Some cookies ->
     holds_cookie (parse_cookie_list now_start cookies) "client_id" ->
     holds_cookie (parse_cookie_list now_start cookies) "identity" ->
     login w = (Ok (parse_cookie_list now_start cookies), w)) /\
  (path_exists (l_fs w) (resolve ".cookies") = false \/
   (exists text cookies,
      path_exists (l_fs w) (resolve ".cookies") = true /\
      fst (read_file (resolve ".cookies") (l_fs w)) = Ok text /\
      json_load text = Some cookies /\
      (lacks_cookie (parse_cookie_list now_start cookies) "client_id" \/
       (holds_cookie (parse_cookie_list now_start cookies) "client_id" /\
        lacks_cookie (parse_cookie_list now_start cookies) "identity"))) ->
   (exists tail,
      l_log (snd (login w)) = (l_log w ++ EvBrowser Firefox :: tail)%list) /\
   (forall cs w1, fresh w = (Ok cs, w1) ->
      fst (login w) = Ok (parse_cookie_list now_login cs) /\
      files (l_fs (snd (login w))) !! resolve ".cookies" = Some (json_dump cs) /\
      l_log (snd (login w)) = (l_log w1 ++ [EvOpenWrite ".cookies"])%list) /\
   (forall e w1, fresh w = (Raise e, w1) ->
      login w = (Raise e, w1) /\ l_fs w1 = l_fs w)).
Proof.
  cbn zeta. split.
  - intros text cookies He Hr Hj H1 H2.
    unfold bandcamp_login, bind.
    now rewrite (cached_jar_hit w text cookies He Hr Hj H1 H2).
  - intros Hmiss. apply cached_jar_miss in Hmiss as [Hc Hd].
    pose proof (fresh_login_frame username password w) as Hfs.
    assert (Hlogin :
      bandcamp_login browser_fails browser_cookies json_dump json_load
        now_start now_login username password w =
      match (act browser_fails Firefox ;;;
             try_finally (login_steps browser_fails browser_cookies
                            username password)
                         (act browser_fails Quit)) w with
      | (Ok cs, w1) =>
          (write_cache json_dump cs ;;; ret (parse_cookie_list now_login cs)) w1
      | (Raise e, w1) => (Raise e, w1)
      end).
    { unfold bandcamp_login. unfold bind at 1. rewrite Hc.
      unfold bind at 1 2 4.
      destruct (act browser_fails Firefox w) as [[[]|e] w0]; [|reflexivity].
      now destruct (try_finally _ _ w0) as [[cs|e] w1]. }
    rewrite Hlogin. clear Hlogin.
    assert (Hstart : exists tail,
      l_log (snd ((act browser_fails Firefox ;;;
             try_finally (login_steps browser_fails browser_cookies
                            username password)
                         (act browser_fails Quit)) w)) =
      (l_log w ++ EvBrowser Firefox :: tail)%list).
    { unfold bind at 1. unfold act at 1.
      destruct (browser_fails (browser_actions (l_log w)) Firefox).
      - exists []. reflexivity.
      - set (w0 := mkLoginWorld _ _).
        destruct (logs_only_try_finally (fun _ => True)
                    (login_steps browser_fails browser_cookies username password)
                    (act browser_fails Quit)) with (w := w0)
          as (_ & steps & Hl & _).
        + intros w2. destruct (logs_only_login_steps browser_fails browser_cookies
                             username password w2) as (H1 & st & H2 & _).
          split; [exact H1|]. exists st. split; [exact H2|].
          apply Forall_forall. auto.
        + now apply logs_only_act.
        + rewrite Hl. unfold w0. cbn [l_log]. rewrite <- List.app_assoc.
          now exists (map EvBrowser steps). }
    destruct ((act browser_fails Firefox ;;;
               try_finally (login_steps browser_fails browser_cookies
                              username password)
                           (act browser_fails Quit)) w) as [[cs|e] w1];
      cbn [fst snd] in *.
    + assert (Hd1 : is_dir (l_fs w1) (resolve ".cookies") = false)
        by now rewrite Hfs.
      destruct (write_cache_result cs w1 Hd1) as (Hok & Hfile & _ & Hlog).
      unfold bind, ret.
      destruct (write_cache json_dump cs w1) as [[[]|e] w2]; cbn [fst snd] in *;
        [|discriminate].
      split.
      * destruct Hstart as [tail Ht]. rewrite Hlog, Ht.
        exists (tail ++ [EvOpenWrite ".cookies"])%list.
        now rewrite <- List.app_assoc.
      * split; [|intros e0 w0; discriminate].
        intros cs0 w0 [= <- <-]. auto.
    + split; [exact Hstart|]. split; [intros cs0 w0; discriminate|].
      intros e0 w0 [= <- <-]. auto.
Qed.

End CacheProofs.

(** ** Worked runs *)

(** C1 as stated fails for the item as the program processes it: the
    marker of the item exists, the turn of the main loop ends with the
    skip, and the download page of the item has been requested. *)
Lemma locked_item_still_requests_page :
  let self := new_DownloadAlbum ex_item (Some "Music") in
  let r := process_album ex_json_loads ex_tags_pagedata ex_http_get ex_not_zip
             "Music" ex_item ex_locked_world in
  path_exists (w_fs ex_locked_world) (lock_of self) = true /\
  fst r = Ok tt /\
  w_net (snd r) <> w_net ex_locked_world.
Proof. vm_compute. repeat split. discriminate. Qed.

Lemma locked_item_is_skipped_witness :
  fetch_album ex_http_get ex_not_zip
    (new_DownloadAlbum ex_item (Some "Music")) ex_locked_world =
  (Ok tt,
   mkWorld ex_locked_fs []
     ["Skipping already fetched album, Band - Title"]).
Proof.
  destruct (locked_item_is_skipped ex_json_loads ex_tags_pagedata ex_http_get
              ex_not_zip "Music" ex_item ex_locked_world) as [H _].
  - vm_compute. reflexivity.
  - vm_compute. reflexivity.
  - apply (H (new_DownloadAlbum ex_item (Some "Music"))); reflexivity.
Defined.

Lemma get_collection_concat_witness :
  get_collection 5 42 "t0" (Some [])
    (mkServer ([ex_page] ++ ex_empty_page :: [])%list []) =
  (Ok (seed_items (Some []) ++ concat (map page_joined [ex_page]))%list,
   mkServer []
     ([] ++ map (fun t => mkPost 42 t 100) (cursors "t0" [ex_page]))%list).
Proof.
  apply (get_collection_concat [ex_page] ex_empty_page [] 42 "t0" (Some []) [] 5).
  - repeat constructor; [discriminate | eexists; reflexivity].
  - reflexivity.
  - eexists. reflexivity.
  - cbn. lia.
Defined.

(** The scenario of the specification: fan 42, a page of two items
    with tokens [t1] and [t2], then an empty page. *)
Example collection_scenario :
  get_collection 5 42 "t0" None (mkServer [ex_page; ex_empty_page] []) =
  (Ok [ mkItem "a" 7 12 "Title" "Band" "t1"
               (Some "https://bandcamp.com/download?id=12");
        mkItem "t" 8 13 "Song" "Band" "t2" None ],
   mkServer [] [mkPost 42 "t0" 100; mkPost 42 "t2" 100]).
Proof. vm_compute. reflexivity. Qed.

Lemma no_pagedata_gives_defaults_witness :
  fan_id ex_int_of_string
    (snd (blob_of ex_json_loads ex_tags_plain "<html><div id=content>")) = Ok 0.
Proof.
  apply (no_pagedata_gives_defaults ex_json_loads ex_tags_plain ex_int_of_string
           "<html><div id=content>").
  repeat constructor; intros [H1 H2]; discriminate.
Defined.

Lemma parse_album_no_pagedata_witness :
  parse_album ex_json_loads ex_tags_plain ex_http_get
    (new_DownloadAlbum ex_item None) ex_new_world =
  (Raise (KeyError "digital_items"),
   mkWorld (w_fs ex_new_world)
     (w_net ex_new_world ++ ["https://bandcamp.com/download?id=12"])%list
     (w_out ex_new_world)).
Proof.
  apply (parse_album_no_pagedata ex_json_loads ex_tags_plain ex_http_get
           ex_item None ex_new_world "https://bandcamp.com/download?id=12"
           "ID3 raw audio").
  - reflexivity.
  - reflexivity.
  - repeat constructor; intros [H1 H2]; discriminate.
Defined.

(** C7 as stated fails when a cookie of the cache is empty: the store
    built from the cache has a cookie named [client_id] and one named
    [identity], and the browser is started all the same. *)
Lemma empty_cookie_forces_login :
  let jar := parse_cookie_list 100 ex_cache_cookies in
  let r := bandcamp_login ex_browser_ok ex_browser_cookies ex_json_dump
             ex_json_load 100 200 "user" "secret" ex_cache_world in
  path_exists (l_fs ex_cache_world) (resolve ".cookies") = true /\
  cookies_named "client_id" jar <> [] /\
  cookies_named "identity" jar <> [] /\
  l_log ex_cache_world = [] /\
  hd_error (l_log (snd r)) = Some (EvBrowser Firefox).
Proof.
  cbn zeta.
  assert (H1 : cookies_named "client_id" (parse_cookie_list 100 ex_cache_cookies)
               = [("bandcamp.com", "/", "client_id", ("", None))])
    by (vm_compute; reflexivity).
  assert (H2 : cookies_named "identity" (parse_cookie_list 100 ex_cache_cookies)
               = [("bandcamp.com", "/", "identity", ("me", None))])
    by (vm_compute; reflexivity).
  rewrite H1, H2.
  split; [vm_compute; reflexivity|].
  split; [discriminate|]. split; [discriminate|].
  split; [reflexivity|]. vm_compute. reflexivity.
Qed.

(** C5 fails for a title with a slash: the download succeeds, the
    stream is no archive, and the rename to [a/b.mp3] raises because
    the directory [a] under the item's directory does not exist; the
    zip file stays where it was. *)
Lemma extract_slash_title_raises :
  let w1 := snd (download ex_http_get ex_slash_downloader ex_new_world) in
  fst (download ex_http_get ex_slash_downloader ex_new_world) = Ok tt /\
  files (w_fs w1) !! zip_of ex_slash_downloader = Some "ID3 raw audio" /\
  extract ex_not_zip ex_slash_downloader w1 = (Raise FileNotFoundError, w1).
Proof. vm_compute. repeat split. Qed.

(** ** Extraction, where it works

    The two branches of [extract] for an item whose title is a plain
    file name. *)

Lemma download_path_exists (self : DownloadAlbum) (w : World) :
  path_exists (w_fs w) (dir_of self) = true ->
  download_path self w = (Ok (path_join (dir_string self) (zip_name self)), w).
Proof.
  intros H. unfold download_path, bind. now rewrite download_dir_exists.
Qed.

Lemma rename_to_mp3_exists (self : DownloadAlbum) (w : World) :
  path_exists (w_fs w) (dir_of self) = true ->
  rename_to_mp3 self w = with_fs (rename_file (zip_of self) (mp3_of self)) w.
Proof.
  intros H. unfold rename_to_mp3, bind.
  rewrite download_path_exists by exact H.
  rewrite download_dir_exists by exact H. reflexivity.
Qed.

Lemma extract_unfold zip_members (self : DownloadAlbum) (w : World) :
  path_exists (w_fs w) (dir_of self) = true ->
  extract zip_members self w =
  match read_file (zip_of self) (w_fs w) with
  | (Raise e, _) => (Raise e, w)
  | (Ok bytes, _) =>
      match zip_members bytes with
      | Some ms =>
          try_except (with_fs (extractall (dir_of self) ms)) is_BadZipFile
                     (rename_to_mp3 self) w
      | None => with_fs (rename_file (zip_of self) (mp3_of self)) w
      end
  end.
Proof.
  intros H. unfold extract, try_except. unfold bind at 1.
  rewrite download_path_exists by exact H. fold (zip_of self).
  unfold bind at 1. unfold with_fs at 1.
  pose proof (read_file_state (zip_of self) (w_fs w)) as Hs.
  unfold read_file in *.
  destruct (is_dir (w_fs w) (zip_of self)); cbn [snd] in *;
    [destruct w; reflexivity|].
  destruct (files (w_fs w) !! zip_of self) as [bytes|];
    cbn [snd] in *; destruct w as [fs net out]; cbn [w_fs w_net w_out] in *;
    [|reflexivity].
  destruct (zip_members bytes) as [ms|].
  - unfold bind. rewrite download_dir_exists by exact H. reflexivity.
  - unfold raise. cbn [is_BadZipFile].
    now rewrite rename_to_mp3_exists.
Qed.

Lemma mp3_of_eq (self : DownloadAlbum) :
  plain_name (mp3_name self) = true ->
  mp3_of self = (fst (dir_of self), mp3_name self :: snd (dir_of self)).
Proof. apply resolve_join_plain. Qed.

Lemma zip_ne_mp3 (self : DownloadAlbum) : zip_of self <> mp3_of self.
Proof.
  intros H. destruct (mp3_of_head self) as (cur & stk & Hm).
  rewrite <- H, zip_of_eq in Hm. cbn [snd] in Hm.
  injection Hm as Hn _. apply (f_equal last_ascii) in Hn.
  unfold zip_name in Hn.
  rewrite (last_ascii_app cur ".mp3") in Hn by discriminate.
  rewrite (last_ascii_app _ ".zip") in Hn by discriminate.
  discriminate.
Qed.

(** A stream that is no archive, under a title that is a plain file
    name with no directory in its way: the downloaded file moves to
    [{item_title}.mp3] in the item's directory, with its content, the
    zip name is gone, nothing else changes and no error is raised. *)
Lemma extract_not_archive_renames zip_members
  (self : DownloadAlbum) (w : World) (bytes : string) :
  is_dir (w_fs w) (dir_of self) = true ->
  is_dir (w_fs w) (zip_of self) = false ->
  files (w_fs w) !! zip_of self = Some bytes ->
  zip_members bytes = None ->
  plain_name (mp3_name self) = true ->
  is_dir (w_fs w) (mp3_of self) = false ->
  let r := extract zip_members self w in
  fst r = Ok tt /\
  files (w_fs (snd r)) !! mp3_of self = Some bytes /\
  parent (mp3_of self) = dir_of self /\
  files (w_fs (snd r)) !! zip_of self = None /\
  (forall q, q <> mp3_of self -> q <> zip_of self ->
             files (w_fs (snd r)) !! q = files (w_fs w) !! q) /\
  dirs (w_fs (snd r)) = dirs (w_fs w) /\
  w_net (snd r) = w_net w /\ w_out (snd r) = w_out w.
Proof.
  intros Hdir Hzd Hzip Hno Hplain Hmd. cbn zeta.
  assert (Hpar : parent (mp3_of self) = dir_of self).
  { rewrite mp3_of_eq, parent_plain by exact Hplain. now destruct (dir_of self). }
  rewrite extract_unfold by (unfold path_exists; now rewrite Hdir).
  unfold read_file. rewrite Hzd, Hzip, Hno.
  unfold with_fs, rename_file. rewrite Hzip, Hmd, Hpar, Hdir.
  cbn [negb fst snd w_fs w_net w_out files dirs].
  split; [reflexivity|]. split; [apply lookup_insert_eq|].
  split; [reflexivity|]. split.
  - rewrite lookup_insert_ne by (intros H; now apply (zip_ne_mp3 self)).
    apply lookup_delete_eq.
  - split; [|repeat split]. intros q H1 H2.
    rewrite lookup_insert_ne by congruence. now apply lookup_delete_ne.
Qed.

Lemma files_mkdir (p : Path) (fs : FS) : files (snd (mkdir p fs)) = files fs.
Proof.
  unfold mkdir. destruct (path_exists fs p); [reflexivity|].
  now destruct (negb _).
Qed.

Lemma files_makedirs_stk (abs : bool) (stk : list string) :
  forall fs, files (snd (makedirs_stk abs stk fs)) = files fs.
Proof.
  induction stk as [|c t IH]; intros fs; [reflexivity|].
  cbn [makedirs_stk]. unfold bind.
  destruct (path_exists fs (abs, t)).
  - apply files_mkdir.
  - specialize (IH fs).
    destruct (makedirs_stk abs t fs) as [[[]|e] fs1]; cbn [snd] in *; [|exact IH].
    now rewrite files_mkdir.
Qed.

Lemma is_dir_mkdir (p q : Path) (fs : FS) :
  is_dir fs q = true -> is_dir (snd (mkdir p fs)) q = true.
Proof.
  intros H. unfold mkdir. destruct (path_exists fs p); [exact H|].
  destruct (negb _); [exact H|]. cbn [snd]. unfold is_dir in *. cbn [dirs].
  apply orb_true_iff in H as [H|H]; [now rewrite H|].
  apply orb_true_iff. right. apply bool_decide_eq_true in H.
  apply bool_decide_eq_true. rewrite elem_of_union. now right.
Qed.

Lemma is_dir_makedirs_stk (abs : bool) (q : Path) (stk : list string) :
  forall fs, is_dir fs q = true -> is_dir (snd (makedirs_stk abs stk fs)) q = true.
Proof.
  induction stk as [|c t IH]; intros fs H; [exact H|].
  cbn [makedirs_stk]. unfold bind.
  destruct (path_exists fs (abs, t)).
  - now apply is_dir_mkdir.
  - specialize (IH fs H).
    destruct (makedirs_stk abs t fs) as [[[]|e] fs1]; cbn [snd] in *; [|exact IH].
    now apply is_dir_mkdir.
Qed.

(** What extracting one member does to the files and directories. *)
Lemma extract_member_effect (dir : Path) (m : Member) (fs : FS) :
  let r := extract_member dir m fs in
  let target := member_target dir m in
  (forall q, q <> target -> files (snd r) !! q = files fs !! q) /\
  (forall q, is_dir fs q = true -> is_dir (snd r) q = true) /\
  (is_file fs target = true -> is_file (snd r) target = true) /\
  (fst r = Ok tt ->
   if m_is_dir m then is_dir (snd r) target = true
   else files (snd r) !! target = Some (m_data m)).
Proof.
  cbn zeta. unfold extract_member, bind.
  set (target := member_target dir m).
  set (first := if path_exists fs (parent target) then (Ok tt, fs)
                else makedirs (parent target) fs).
  assert (Hf : files (snd first) = files fs).
  { unfold first. destruct (path_exists fs (parent target)); [reflexivity|].
    apply files_makedirs_stk. }
  assert (Hd : forall q, is_dir fs q = true -> is_dir (snd first) q = true).
  { intros q Hq. unfold first. destruct (path_exists fs (parent target)); [exact Hq|].
    now apply is_dir_makedirs_stk. }
  destruct first as [[[]|e] fs1]; cbn [fst snd] in *.
  2: { unfold is_file. rewrite Hf. repeat split; auto. discriminate. }
  destruct (m_is_dir m).
  - destruct (is_dir fs1 target) eqn:Ht; cbn [fst snd].
    + unfold is_file. rewrite Hf. repeat split; auto.
    + pose proof (files_mkdir target fs1) as Hm.
      unfold is_file. rewrite Hm, Hf.
      split; [reflexivity|]. split; [intros q Hq; now apply is_dir_mkdir, Hd|].
      split; [auto|]. unfold mkdir.
      destruct (path_exists fs1 target); [discriminate|].
      destruct (negb _); [discriminate|]. intros _. cbn [snd].
      unfold is_dir. cbn [dirs]. apply orb_true_iff. right.
      apply bool_decide_eq_true. rewrite elem_of_union, elem_of_singleton. now left.
  - destruct (m_fault m) as [[e|e]|].
    { unfold raise. cbn [fst snd]. unfold is_file. rewrite Hf.
      repeat split; auto. discriminate. }
    all: unfold open_w;
      (destruct (is_dir fs1 target); cbn [fst snd];
       [unfold is_file; rewrite Hf; repeat split; auto; discriminate|]);
      (destruct (negb _); cbn [fst snd];
       [unfold is_file; rewrite Hf; repeat split; auto; discriminate|]);
      unfold write_block, modify, raise; cbn [fst snd files dirs];
      rewrite lookup_insert_eq; cbn [fst snd files dirs];
      (split; [|split; [|split]]);
      [ intros q Hq; rewrite !lookup_insert_ne by congruence; now rewrite Hf
      | intros q Hq; exact (Hd q Hq)
      | intros _; unfold is_file; cbn [files]; now rewrite lookup_insert_eq
      | try discriminate; intros _; now rewrite lookup_insert_eq ].
Qed.

(** What a successful [extractall] leaves: every directory member is a
    directory, and every file member holds its data unless a later
    member has the same target. *)
Lemma extractall_members (dir : Path) (ms : list Member) :
  forall fs,
  let r := extractall dir ms fs in
  (forall q, (forall m, m ∈ ms -> member_target dir m <> q) ->
             files (snd r) !! q = files fs !! q) /\
  (forall q, is_dir fs q = true -> is_dir (snd r) q = true) /\
  (forall q, is_file fs q = true -> is_file (snd r) q = true) /\
  (fst r = Ok tt ->
   forall l1 m l2, ms = (l1 ++ m :: l2)%list ->
     (m_is_dir m = true -> is_dir (snd r) (member_target dir m) = true) /\
     (m_is_dir m = false ->
      (forall m', m' ∈ l2 -> member_target dir m' <> member_target dir m) ->
      files (snd r) !! member_target dir m = Some (m_data m))).
Proof.
  induction ms as [|m0 ms IH]; intros fs; cbn zeta.
  { cbn. repeat split; auto; intros; destruct l1; discriminate. }
  cbn [extractall]. unfold bind.
  destruct (extract_member_effect dir m0 fs) as (Hf0 & Hd0 & Hi0 & Hok0).
  destruct (extract_member dir m0 fs) as [[[]|e] fs1]; cbn [fst snd] in *.
  2: { split; [|split; [|split]].
       - intros q Hq. apply Hf0. intros ->.
         now apply (Hq m0 (list_elem_of_here _ _)).
       - exact Hd0.
       - intros q Hq. destruct (decide (q = member_target dir m0)) as [->|Hne];
           [now apply Hi0|].
         unfold is_file in *. now rewrite Hf0.
       - discriminate. }
  destruct (IH fs1) as (Hf & Hd & Hi & Hok). clear IH.
  split; [|split; [|split]].
  - intros q Hq. rewrite Hf.
    + apply Hf0. intros ->. now apply (Hq m0 (list_elem_of_here _ _)).
    + intros m Hm. apply Hq. now apply list_elem_of_further.
  - intros q Hq. now apply Hd, Hd0.
  - intros q Hq. apply Hi.
    destruct (decide (q = member_target dir m0)) as [->|Hne]; [now apply Hi0|].
    unfold is_file in *. now rewrite Hf0.
  - intros Hr l1 m l2 Hms. destruct l1 as [|x l1]; cbn in Hms.
    + injection Hms as <- <-. specialize (Hok0 eq_refl). split.
      * intros Hdir. rewrite Hdir in Hok0. now apply Hd.
      * intros Hfile Hlater. rewrite Hfile in Hok0.
        rewrite Hf; [exact Hok0 | exact Hlater].
    + injection Hms as <- ->. exact (Hok Hr l1 m l2 eq_refl).
Qed.

Lemma mkdir_not_bad (p : Path) (fs : FS) :
  fst (mkdir p fs) <> Raise BadZipFile.
Proof.
  unfold mkdir, missing_parent. destruct (path_exists fs p); [discriminate|].
  destruct (negb _); [|discriminate].
  destruct (is_file fs (parent p)); discriminate.
Qed.

Lemma makedirs_stk_not_bad (abs : bool) (stk : list string) :
  forall fs, fst (makedirs_stk abs stk fs) <> Raise BadZipFile.
Proof.
  induction stk as [|c t IH]; intros fs; [discriminate|].
  cbn [makedirs_stk]. unfold bind.
  destruct (path_exists fs (abs, t)); [apply mkdir_not_bad|].
  specialize (IH fs).
  destruct (makedirs_stk abs t fs) as [[[]|e] fs1]; cbn [fst] in *;
    [apply mkdir_not_bad | exact IH].
Qed.

Lemma open_w_not_bad (p : Path) (fs : FS) :
  fst (open_w p fs) <> Raise BadZipFile.
Proof.
  unfold open_w, missing_parent. destruct (is_dir fs p); [discriminate|].
  destruct (negb _); [|discriminate].
  destruct (is_file fs (parent p)); discriminate.
Qed.

(** Only the reader raises [BadZipFile]: a member whose extraction
    ends in it is a damaged one. *)
Lemma extract_member_bad (dir : Path) (m : Member) (fs : FS) :
  fst (extract_member dir m fs) = Raise BadZipFile ->
  member_raises m = Some BadZipFile.
Proof.
  unfold extract_member, member_raises, bind.
  set (target := member_target dir m).
  assert (H1 : fst (if path_exists fs (parent target) then (Ok tt, fs)
                    else makedirs (parent target) fs) <> Raise BadZipFile).
  { destruct (path_exists fs (parent target)); [discriminate|].
    apply makedirs_stk_not_bad. }
  destruct (if path_exists fs (parent target) then _ else _) as [[[]|e] fs1];
    cbn [fst] in *; [|intros H; now rewrite H in H1].
  destruct (m_is_dir m).
  { destruct (is_dir fs1 target); [discriminate|].
    intros H. now apply mkdir_not_bad in H. }
  destruct (m_fault m) as [[e|e]|].
  - unfold raise. cbn. congruence.
  - pose proof (open_w_not_bad target fs1) as Ho.
    destruct (open_w target fs1) as [[[]|e'] fs2]; cbn [fst] in *.
    + unfold write_block, modify, raise. cbn. congruence.
    + intros H. now rewrite H in Ho.
  - pose proof (open_w_not_bad target fs1) as Ho.
    destruct (open_w target fs1) as [[[]|e'] fs2]; cbn [fst] in *.
    + unfold write_block, modify. cbn. discriminate.
    + intros H. now rewrite H in Ho.
Qed.

(** An extraction that fails has extracted the members before the
    failing one. *)
Lemma extractall_raise_split (dir : Path) (ms : list Member) (e : Exn) :
  forall fs,
  fst (extractall dir ms fs) = Raise e ->
  exists l1 m l2 fs1,
    ms = (l1 ++ m :: l2)%list /\
    extractall dir l1 fs = (Ok tt, fs1) /\
    extract_member dir m fs1 = (Raise e, snd (extractall dir ms fs)).
Proof.
  induction ms as [|m0 ms IH]; intros fs; [discriminate|].
  cbn [extractall]. unfold bind.
  destruct (extract_member dir m0 fs) as [[[]|e0] fs0] eqn:H0; cbn [fst snd].
  - intros H. destruct (IH fs0 H) as (l1 & m & l2 & fs1 & -> & H1 & H2).
    exists (m0 :: l1), m, l2, fs1. split; [reflexivity|]. split; [|exact H2].
    cbn [extractall]. unfold bind. now rewrite H0.
  - intros [= ->]. exists [], m0, ms, fs. repeat split. exact H0.
Qed.

Lemma is_BadZipFile_true (e : Exn) : is_BadZipFile e = true -> e = BadZipFile.
Proof. destruct e; (discriminate || reflexivity). Qed.

(** A stream that is an archive.  When no member is damaged the zip
    file stays a file under its name (with its content, unless a
    member has that very name) and a run that returns has put every
    member in place.  When the zip file does not keep its content, a
    member was damaged: the reader raised [BadZipFile] at it, the
    members before it stay extracted, and the handler has moved the
    file to [{item_title}.mp3] as if it were no archive at all. *)
Theorem extract_archive_populates zip_members
  (self : DownloadAlbum) (w : World) (bytes : string) (ms : list Member) :
  is_dir (w_fs w) (dir_of self) = true ->
  is_dir (w_fs w) (zip_of self) = false ->
  files (w_fs w) !! zip_of self = Some bytes ->
  zip_members bytes = Some ms ->
  let r := extract zip_members self w in
  (Forall (fun m => member_raises m <> Some BadZipFile) ms ->
   is_file (w_fs (snd r)) (zip_of self) = true /\
   ((forall m, m ∈ ms -> member_target (dir_of self) m <> zip_of self) ->
    files (w_fs (snd r)) !! zip_of self = Some bytes) /\
   (fst r = Ok tt ->
    forall l1 m l2, ms = (l1 ++ m :: l2)%list ->
      (m_is_dir m = true ->
       is_dir (w_fs (snd r)) (member_target (dir_of self) m) = true) /\
      (m_is_dir m = false ->
       (forall m', m' ∈ l2 ->
          member_target (dir_of self) m' <> member_target (dir_of self) m) ->
       files (w_fs (snd r)) !! member_target (dir_of self) m = Some (m_data m)))) /\
  ((forall m, m ∈ ms -> member_target (dir_of self) m <> zip_of self) ->
   files (w_fs (snd r)) !! zip_of self <> Some bytes ->
   fst r = Ok tt /\
   files (w_fs (snd r)) !! zip_of self = None /\
   files (w_fs (snd r)) !! mp3_of self = Some bytes /\
   exists l1 m l2,
     ms = (l1 ++ m :: l2)%list /\
     member_raises m = Some BadZipFile /\
     (forall k1 m' k2, l1 = (k1 ++ m' :: k2)%list ->
        m_is_dir m' = false ->
        (forall m'', m'' ∈ (k2 ++ [m])%list ->
           member_target (dir_of self) m'' <> member_target (dir_of self) m') ->
        member_target (dir_of self) m' <> mp3_of self ->
        files (w_fs (snd r)) !! member_target (dir_of self) m' = Some (m_data m'))).
Proof.
  intros Hdir Hzd Hzip Hms. cbn zeta.
  rewrite extract_unfold by (unfold path_exists; now rewrite Hdir).
  unfold read_file. rewrite Hzd, Hzip, Hms. unfold try_except, with_fs.
  destruct (extractall_members (dir_of self) ms (w_fs w)) as (Hf & Hd & Hi & Hok).
  pose proof (extractall_raise_split (dir_of self) ms BadZipFile (w_fs w)) as Hsplit.
  assert (Hfile : is_file (w_fs w) (zip_of self) = true)
    by (unfold is_file; now rewrite Hzip).
  destruct (extractall (dir_of self) ms (w_fs w)) as [[[]|e] fs'];
    cbn [fst snd w_fs] in *.
  { split.
    - intros _. split; [now apply Hi|]. split; [|exact Hok].
      intros Hno. now rewrite Hf.
    - intros Hno Hch. exfalso. apply Hch. now rewrite Hf. }
  destruct (is_BadZipFile e) eqn:Hb.
  2: { cbn [fst snd w_fs]. split.
       - intros _. split; [now apply Hi|]. split; [|discriminate].
         intros Hno. now rewrite Hf.
       - intros Hno Hch. exfalso. apply Hch. now rewrite Hf. }
  apply is_BadZipFile_true in Hb. subst e.
  destruct (Hsplit eq_refl) as (l1 & m & l2 & fs1 & Hl & H1 & H2). clear Hsplit.
  assert (Hm : member_raises m = Some BadZipFile).
  { apply (extract_member_bad (dir_of self) m fs1). now rewrite H2. }
  rewrite rename_to_mp3_exists
    by (cbn [w_fs]; unfold path_exists; now rewrite (Hd _ Hdir)).
  unfold with_fs, rename_file. cbn [w_fs w_net w_out].
  specialize (Hi _ Hfile). unfold is_file in Hi.
  destruct (files fs' !! zip_of self) as [data|] eqn:Hz; [|discriminate].
  destruct (is_dir fs' (mp3_of self)).
  { cbn [fst snd w_fs]. split.
    - intros _. split; [unfold is_file; now rewrite Hz|]. split; [|discriminate].
      intros Hno. rewrite (Hf _ Hno). exact Hzip.
    - intros Hno Hch. exfalso. apply Hch. rewrite (Hf _ Hno). exact Hzip. }
  destruct (negb (is_dir fs' (parent (mp3_of self)))).
  { cbn [fst snd w_fs]. split.
    - intros _. split; [unfold is_file; now rewrite Hz|]. split; [|discriminate].
      intros Hno. rewrite (Hf _ Hno). exact Hzip.
    - intros Hno Hch. exfalso. apply Hch. rewrite (Hf _ Hno). exact Hzip. }
  cbn [fst snd w_fs files]. split.
  - intros Hsound. exfalso. rewrite Forall_forall in Hsound.
    apply (Hsound m); [|exact Hm]. rewrite Hl.
    apply elem_of_app. right. apply list_elem_of_here.
  - intros Hno _.
    assert (Hdata : data = bytes).
    { specialize (Hf _ Hno). rewrite Hz, Hzip in Hf. congruence. }
    subst data. split; [reflexivity|]. split.
    { rewrite lookup_insert_ne by (intros H; now apply (zip_ne_mp3 self)).
      apply lookup_delete_eq. }
    split; [apply lookup_insert_eq|].
    exists l1, m, l2. split; [exact Hl|]. split; [exact Hm|].
    intros k1 m' k2 Hk Hfile' Hlater Hmp3.
    rewrite lookup_insert_ne by congruence.
    rewrite lookup_delete_ne.
    2: { intros H. apply (Hno m'); [|now rewrite H].
         rewrite Hl, Hk. apply elem_of_app. left.
         apply elem_of_app. right. apply list_elem_of_here. }
    destruct (extract_member_effect (dir_of self) m fs1) as (Hf1 & _).
    rewrite H2 in Hf1. cbn [snd] in Hf1. rewrite Hf1.
    2: { intros H. apply (Hlater m); [|now rewrite H].
         apply elem_of_app. right. apply list_elem_of_here. }
    destruct (extractall_members (dir_of self) l1 (w_fs w)) as (_ & _ & _ & Hok1).
    rewrite H1 in Hok1. cbn [fst snd] in Hok1.
    destruct (Hok1 eq_refl k1 m' k2 Hk) as [_ Hget].
    apply Hget; [exact Hfile'|].
    intros m'' Hin. apply Hlater. apply elem_of_app. now left.
Qed.

(** ** The download directory *)

Lemma mkdir_ok (p : Path) (fs : FS) :
  fst (mkdir p fs) = Ok tt -> is_dir (snd (mkdir p fs)) p = true.
Proof.
  unfold mkdir. destruct (path_exists fs p); [discriminate|].
  destruct (negb _); [discriminate|]. intros _. cbn [snd].
  unfold is_dir. cbn [dirs]. apply orb_true_iff. right.
  apply bool_decide_eq_true. rewrite elem_of_union, elem_of_singleton. now left.
Qed.

Lemma makedirs_ok (p : Path) (fs : FS) :
  fst (makedirs p fs) = Ok tt -> is_dir (snd (makedirs p fs)) p = true.
Proof.
  destruct p as [abs [|c t]]; unfold makedirs; cbn [fst snd makedirs_stk].
  - discriminate.
  - unfold bind.
    destruct (if path_exists fs (abs, t) then (Ok tt, fs) else makedirs_stk abs t fs)
      as [[[]|e] fs1]; [apply mkdir_ok | discriminate].
Qed.

Lemma download_dir_effect (self : DownloadAlbum) (w : World) :
  let r := download_dir self w in
  w_net (snd r) = w_net w /\
  w_out (snd r) = w_out w /\
  files (w_fs (snd r)) = files (w_fs w) /\
  (forall q, is_dir (w_fs w) q = true -> is_dir (w_fs (snd r)) q = true) /\
  (forall d, fst r = Ok d ->
     d = dir_string self /\ path_exists (w_fs (snd r)) (dir_of self) = true).
Proof.
  cbn zeta. unfold download_dir, bind, os_path_exists, with_fs, ret.
  fold (dir_of self).
  destruct (path_exists (w_fs w) (dir_of self)) eqn:He; cbn [negb fst snd].
  { repeat split; auto; congruence. }
  pose proof (makedirs_ok (dir_of self) (w_fs w)) as Hok.
  pose proof (files_makedirs_stk (fst (dir_of self)) (snd (dir_of self)) (w_fs w)) as Hf.
  pose proof (fun q => is_dir_makedirs_stk (fst (dir_of self)) q (snd (dir_of self)) (w_fs w))
    as Hd.
  fold (makedirs (dir_of self) (w_fs w)) in Hf, Hd.
  destruct (makedirs (dir_of self) (w_fs w)) as [[[]|e] fs1];
    cbn [fst snd w_fs w_net w_out] in *.
  - repeat split; auto; try congruence.
    unfold path_exists. now rewrite Hok.
  - repeat split; auto; discriminate.
Qed.

(** [download_dir] returns the joined path of base directory, band and
    title; once it has returned, that path exists, and asking again
    changes nothing: the directory is created at most once. *)
Theorem download_dir_idempotent (self : DownloadAlbum) (w : World) (d : string) :
  fst (download_dir self w) = Ok d ->
  d = dir_string self /\
  path_exists (w_fs (snd (download_dir self w))) (dir_of self) = true /\
  download_dir self (snd (download_dir self w)) =
    (Ok d, snd (download_dir self w)).
Proof.
  intros H. destruct (download_dir_effect self w) as (_ & _ & _ & _ & Hr).
  destruct (Hr d H) as [-> He]. split; [reflexivity|]. split; [exact He|].
  now apply download_dir_exists.
Qed.

(** ** The marker and the archive *)








(** ** The download *)

Lemma take_drop_str (n : nat) (s : string) : take_str n s ++ drop_str n s = s.
Proof.
  revert s. induction n as [|n IH]; intros [|c s]; cbn; try reflexivity.
  now rewrite IH.
Qed.

Lemma drop_str_length (n : nat) (s : string) :
  String.length (drop_str n s) = (String.length s - n)%nat.
Proof.
  revert s. induction n as [|n IH]; intros [|c s]; cbn; try reflexivity.
  apply IH.
Qed.

Lemma iter_content_go_concat (fuel n : nat) :
  forall body,
  (0 < n)%nat -> (String.length body <= fuel)%nat ->
  fold_right String.append "" (iter_content_go fuel n body) = body.
Proof.
  induction fuel as [|fuel IH]; intros body Hn Hl.
  - destruct body; [reflexivity | cbn in Hl; lia].
  - destruct body as [|c s]; [reflexivity|].
    cbn [iter_content_go fold_right]. rewrite IH.
    + apply take_drop_str.
    + exact Hn.
    + rewrite drop_str_length. cbn [String.length] in *. lia.
Qed.

Lemma iter_content_concat (n : nat) (body : string) :
  (0 < n)%nat -> fold_right String.append "" (iter_content n body) = body.
Proof. intros Hn. now apply iter_content_go_concat. Qed.

Lemma write_blocks_effect (p : Path) (blocks : list string) :
  forall (w : World) (old : string),
  files (w_fs w) !! p = Some old ->
  let r := write_blocks p blocks w in
  fst r = Ok tt /\
  files (w_fs (snd r)) !! p = Some (old ++ fold_right String.append "" blocks) /\
  (forall q, q <> p -> files (w_fs (snd r)) !! q = files (w_fs w) !! q) /\
  dirs (w_fs (snd r)) = dirs (w_fs w) /\
  w_net (snd r) = w_net w /\ w_out (snd r) = w_out w.
Proof.
  induction blocks as [|b bs IH]; intros w old Hold; cbn zeta.
  - cbn. rewrite str_app_nil_r. repeat split; auto.
  - cbn [write_blocks fold_right]. unfold bind, with_fs, write_block, modify.
    rewrite Hold. cbn [fst snd].
    set (w1 := mkWorld _ _ _).
    assert (H1 : files (w_fs w1) !! p = Some (old ++ b))
      by (unfold w1; cbn; apply lookup_insert_eq).
    destruct (IH w1 (old ++ b) H1) as (Hok & Hp & Hq & Hd & Hn & Ho).
    destruct (write_blocks p bs w1) as [r w2]; cbn [fst snd] in *.
    split; [exact Hok|]. split; [now rewrite Hp, str_app_assoc|].
    split; [|repeat split; assumption].
    intros q Hne. rewrite (Hq q Hne). unfold w1. cbn.
    now apply lookup_insert_ne.
Qed.

(** A download that returns has sent one request, for the URL that
    [parse_album] found, and the zip file of the item holds the body of
    the response, whole and in order, whatever it held before. *)
Theorem download_writes_body http_get (self : DownloadAlbum) (w : World) :
  fst (download http_get self w) = Ok tt ->
  exists u body,
    url_of_json (parsed_url self) = Some u /\
    http_get (w_net w) u = Some body /\
    files (w_fs (snd (download http_get self w))) !! zip_of self = Some body /\
    is_dir (w_fs (snd (download http_get self w))) (dir_of self) = true /\
    w_net (snd (download http_get self w)) = (w_net w ++ [u])%list /\
    w_out (snd (download http_get self w)) = w_out w.
Proof.
  remember (download http_get self w) as r eqn:Hr.
  unfold download in Hr. unfold bind at 1 in Hr. unfold download_path, bind at 1 in Hr.
  destruct (download_dir_effect self w) as (Hn & Ho & _ & _ & Hd).
  destruct (download_dir self w) as [[d|e] w1]; cbn [fst snd] in *;
    [|subst r; discriminate].
  destruct (Hd d eq_refl) as [-> _]. unfold ret in Hr. fold (zip_of self) in Hr.
  unfold bind at 1 in Hr. unfold with_fs at 1, open_w in Hr.
  destruct (is_dir (w_fs w1) (zip_of self)); [subst r; discriminate|].
  rewrite parent_zip_of in Hr.
  destruct (is_dir (w_fs w1) (dir_of self)) eqn:Hdir; cbn [negb] in Hr;
    [|subst r; discriminate].
  unfold bind at 1 in Hr. unfold session_get in Hr.
  destruct (url_of_json (parsed_url self)) as [u|]; [|subst r; discriminate].
  cbn [w_net w_fs w_out] in Hr. rewrite Hn in Hr.
  destruct (http_get (w_net w) u) as [body|] eqn:Hb; [|subst r; discriminate].
  set (w2 := mkWorld _ _ _) in Hr.
  assert (H2 : files (w_fs w2) !! zip_of self = Some "")
    by (unfold w2; cbn; apply lookup_insert_eq).
  destruct (write_blocks_effect (zip_of self) (iter_content 1024 body) w2 "" H2)
    as (Hok & Hp & _ & Hdd & Hnn & Hoo).
  rewrite <- Hr in *. intros _. exists u, body.
  split; [reflexivity|]. split; [exact Hb|].
  change ("" ++ fold_right String.append "" (iter_content 1024 body))
    with (fold_right String.append "" (iter_content 1024 body)) in Hp.
  rewrite iter_content_concat in Hp by lia.
  split; [exact Hp|]. split.
  - unfold is_dir in *. rewrite Hdd. exact Hdir.
  - split; [rewrite Hnn; reflexivity | rewrite Hoo; exact Ho].
Qed.

(** When the URL was never resolved, or the server does not answer,
    [download] raises after it has opened the zip file for writing: an
    empty file is what is left under the zip name, and nothing is
    printed. *)
Theorem download_without_response http_get (self : DownloadAlbum) (w : World) :
  is_dir (w_fs w) (dir_of self) = true ->
  is_dir (w_fs w) (zip_of self) = false ->
  (url_of_json (parsed_url self) = None \/
   exists u, url_of_json (parsed_url self) = Some u /\ http_get (w_net w) u = None) ->
  let r := download http_get self w in
  (fst r = Raise MissingSchema \/ fst r = Raise ConnectionError) /\
  files (w_fs (snd r)) !! zip_of self = Some "" /\
  dirs (w_fs (snd r)) = dirs (w_fs w) /\
  w_out (snd r) = w_out w.
Proof.
  intros Hdir Hzd Hno. cbn zeta.
  remember (download http_get self w) as r eqn:Hr.
  unfold download in Hr.
  unfold bind at 1 in Hr. rewrite download_path_exists in Hr
    by (unfold path_exists; now rewrite Hdir).
  fold (zip_of self) in Hr. unfold bind at 1 in Hr.
  unfold with_fs at 1, open_w in Hr.
  rewrite Hzd, parent_zip_of, Hdir in Hr. cbn [negb] in Hr.
  unfold bind at 1 in Hr. unfold session_get in Hr.
  destruct Hno as [Hu | (u & Hu & Hb)]; rewrite Hu in Hr.
  - subst r. cbn. split; [now left|]. split; [apply lookup_insert_eq | auto].
  - cbn [w_net w_fs w_out] in Hr. rewrite Hb in Hr. subst r. cbn.
    split; [now right|]. split; [apply lookup_insert_eq | auto].
Qed.

(** ** Fetching twice *)

Lemma fetch_album_skip_eq http_get zip_members (self : DownloadAlbum) (w : World) :
  path_exists (w_fs w) (dir_of self) = true ->
  path_exists (w_fs w) (lock_of self) = true ->
  fetch_album http_get zip_members self w =
  (Ok tt,
   mkWorld (w_fs w) (w_net w)
     (w_out w ++ [("Skipping already fetched album, " ++ album_name self)%string])%list).
Proof.
  intros Hex Hlock. unfold fetch_album, locked, lock_path.
  unfold bind at 1. unfold bind at 1. unfold bind at 1.
  rewrite download_dir_exists by exact Hex.
  unfold ret, os_path_exists. fold (lock_of self). rewrite Hlock.
  reflexivity.
Qed.

Lemma path_exists_open_w_mono (p q : Path) (fs : FS) :
  path_exists fs q = true -> path_exists (snd (open_w p fs)) q = true.
Proof.
  intros H. destruct (decide (q = p)) as [->|Hne].
  - unfold open_w. destruct (is_dir fs p); [exact H|].
    destruct (negb _); [exact H|]. cbn [snd].
    unfold path_exists, is_file. cbn [files]. rewrite lookup_insert_eq.
    apply orb_true_r.
  - now rewrite path_exists_open_w.
Qed.

Lemma lock_ok (self : DownloadAlbum) (w : World) :
  fst (lock self w) = Ok tt ->
  path_exists (w_fs (snd (lock self w))) (lock_of self) = true /\
  path_exists (w_fs (snd (lock self w))) (dir_of self) = true.
Proof.
  remember (lock self w) as r eqn:Hr.
  unfold lock, lock_path in Hr. unfold bind at 1 in Hr. unfold bind at 1 in Hr.
  destruct (download_dir_effect self w) as (_ & _ & _ & _ & Hd).
  destruct (download_dir self w) as [[d|e] w1]; cbn [fst snd] in *;
    [|subst r; discriminate].
  destruct (Hd d eq_refl) as [-> Hex]. unfold ret in Hr. fold (lock_of self) in Hr.
  unfold with_fs in Hr.
  pose proof (path_exists_open_w_mono (lock_of self) (dir_of self) (w_fs w1) Hex) as Hm.
  unfold open_w in *.
  destruct (is_dir (w_fs w1) (lock_of self)); [subst r; discriminate|].
  destruct (negb _); [subst r; discriminate|]. subst r.
  cbn [fst snd w_fs] in *. intros _.
  split; [|exact Hm].
  unfold path_exists, is_file. cbn [files]. rewrite lookup_insert_eq.
  apply orb_true_r.
Qed.

Lemma locked_ok_dir (self : DownloadAlbum) (w : World) (b : bool) :
  fst (locked self w) = Ok b ->
  path_exists (w_fs (snd (locked self w))) (dir_of self) = true.
Proof.
  remember (locked self w) as r eqn:Hr.
  unfold locked, lock_path in Hr. unfold bind at 1 in Hr. unfold bind at 1 in Hr.
  destruct (download_dir_effect self w) as (_ & _ & _ & _ & Hd).
  destruct (download_dir self w) as [[d|e] w1]; cbn [fst snd] in *;
    [|subst r; discriminate].
  subst r. intros _. now destruct (Hd d eq_refl).
Qed.

(** Fetching is idempotent: after a [fetch_album] that returned, a
    second [fetch_album] of the same item sends no request, changes no
    file and only prints that the album is skipped. *)
Theorem fetch_album_then_skips http_get zip_members
  (self : DownloadAlbum) (w : World) :
  fst (fetch_album http_get zip_members self w) = Ok tt ->
  fetch_album http_get zip_members self
    (snd (fetch_album http_get zip_members self w)) =
  (Ok tt,
   mkWorld (w_fs (snd (fetch_album http_get zip_members self w)))
           (w_net (snd (fetch_album http_get zip_members self w)))
           (w_out (snd (fetch_album http_get zip_members self w)) ++
            [("Skipping already fetched album, " ++ album_name self)%string])%list).
Proof.
  intros Hok.
  assert (H : path_exists (w_fs (snd (fetch_album http_get zip_members self w)))
                (dir_of self) = true /\
              path_exists (w_fs (snd (fetch_album http_get zip_members self w)))
                (lock_of self) = true).
  { remember (fetch_album http_get zip_members self w) as r eqn:Hr.
    unfold fetch_album in Hr. unfold bind at 1 in Hr.
    pose proof (locked_reads self w) as Hread.
    pose proof (locked_ok_dir self w) as Hdir.
    destruct (locked self w) as [[b|e] wl]; cbn [fst snd] in *;
      [|subst r; discriminate].
    destruct b.
    - subst r. cbn [fst snd print modify w_fs]. split.
      + exact (Hdir true eq_refl).
      + symmetry. exact (Hread true eq_refl).
    - unfold bind at 1 in Hr. unfold print at 1, modify at 1 in Hr.
      unfold bind at 1 in Hr.
      destruct (download http_get self _) as [[[]|e] w1];
        [|subst r; discriminate].
      unfold bind at 1 in Hr.
      destruct (extract zip_members self w1) as [[[]|e] w2];
        [|subst r; discriminate].
      pose proof (lock_ok self w2) as Hl. rewrite <- Hr in Hl.
      destruct (Hl Hok) as [H1 H2]. now split. }
  destruct H as [Hd Hl]. now apply fetch_album_skip_eq.
Qed.

(** ** More on the blob parser *)

Lemma feed_tags_app json_loads (ts1 ts2 : list StartTag) (blob : option json) :
  feed_tags json_loads (ts1 ++ ts2) blob =
  (feed_tags json_loads ts1 ;;; feed_tags json_loads ts2) blob.
Proof.
  revert blob. induction ts1 as [|t ts1 IH]; intros blob; [reflexivity|].
  cbn [app feed_tags]. unfold bind.
  destruct (handle_starttag json_loads t blob) as [[[]|e] b1]; [|reflexivity].
  rewrite IH. reflexivity.
Qed.

(** The payload is decoded from the last [div] of id [pagedata] of the
    document: an earlier one is overwritten, whatever it held. *)
Theorem feed_last_pagedata_wins json_loads html_start_tags
  (text : string) (ts1 ts2 : list StartTag) (t : StartTag)
  (raw : string) (j : json) (blob : option json) :
  html_start_tags text = (ts1 ++ t :: ts2)%list ->
  fst (feed_tags json_loads ts1 blob) = Ok tt ->
  tag_name t = "div" ->
  attrs_get "id" (tag_attrs t) = Some "pagedata" ->
  attrs_get "data-blob" (tag_attrs t) = Some raw ->
  json_loads raw = Some j ->
  Forall (fun t' => ~ (tag_name t' = "div" /\
                       attrs_get "id" (tag_attrs t') = Some "pagedata")) ts2 ->
  feed json_loads html_start_tags text blob = (Ok tt, Some j).
Proof.
  intros Hts H1 Hdiv Hid Hraw Hj H2. unfold feed. rewrite Hts, feed_tags_app.
  unfold bind at 1.
  destruct (feed_tags json_loads ts1 blob) as [[[]|e] b1]; cbn [fst] in H1;
    [|discriminate].
  cbn [feed_tags]. unfold bind, handle_starttag, is_pagedata.
  rewrite Hdiv, Hid, Hraw, Hj. cbn.
  apply feed_tags_no_pagedata.
  eapply Forall_impl; [exact H2|]. intros t' Ht'. now apply is_pagedata_false.
Qed.

(** A [pagedata] div without a [data-blob] attribute, or with one that
    is not JSON, stops the parse with an error; the tags after it are
    not looked at and the payload of the divs before it stays. *)
Theorem feed_bad_pagedata_raises json_loads html_start_tags
  (text : string) (ts1 ts2 : list StartTag) (t : StartTag)
  (blob b1 : option json) :
  html_start_tags text = (ts1 ++ t :: ts2)%list ->
  feed_tags json_loads ts1 blob = (Ok tt, b1) ->
  tag_name t = "div" ->
  attrs_get "id" (tag_attrs t) = Some "pagedata" ->
  (attrs_get "data-blob" (tag_attrs t) = None ->
   feed json_loads html_start_tags text blob = (Raise TypeError, b1)) /\
  (forall raw, attrs_get "data-blob" (tag_attrs t) = Some raw ->
     json_loads raw = None ->
     feed json_loads html_start_tags text blob = (Raise JSONDecodeError, b1)).
Proof.
  intros Hts H1 Hdiv Hid. unfold feed. rewrite Hts, feed_tags_app.
  split.
  - intros Hraw. unfold bind at 1. rewrite H1. cbn [feed_tags].
    unfold bind, handle_starttag, is_pagedata. now rewrite Hdiv, Hid, Hraw.
  - intros raw Hraw Hj. unfold bind at 1. rewrite H1. cbn [feed_tags].
    unfold bind, handle_starttag, is_pagedata. now rewrite Hdiv, Hid, Hraw, Hj.
Qed.

(** A payload that is false in a condition -- [null], [0], the empty
    string, list or mapping -- counts as no payload: the accessors give
    their defaults.  A payload that is true but no mapping makes them
    raise. *)
Theorem blob_truthiness_decides int_of_string (j : json) :
  (truthy j = false ->
   data (Some j) = JObj [] /\
   fan_id int_of_string (Some j) = Ok 0 /\
   last_token (Some j) = Ok (JStr "")) /\
  (truthy j = true -> (forall kv, j <> JObj kv) ->
   fan_id int_of_string (Some j) = Raise AttributeError /\
   last_token (Some j) = Raise AttributeError /\
   py_getitem (data (Some j)) "digital_items" = Raise TypeError).
Proof.
  split.
  - intros H. unfold fan_id, last_token, data. rewrite H. repeat split.
  - intros H Hno. unfold fan_id, last_token, data. rewrite H.
    destruct j; cbn; try (repeat split; reflexivity).
    now destruct (Hno kv).
Qed.

(** ** More on the URL resolution *)

Lemma parse_downloads_last (entries urls : list json) :
  Forall2 mp3_url entries urls ->
  forall init,
  parse_downloads entries init =
  Ok (match last urls with Some u => Some u | None => init end).
Proof.
  induction 1 as [|e u entries urls Hm _ IH]; intros init.
  - reflexivity.
  - destruct Hm as (d & f & H1 & H2 & H3).
    cbn [parse_downloads]. rewrite H1. cbn [result_bind]. rewrite H2.
    cbn [result_bind]. rewrite H3. cbn [result_bind]. rewrite IH.
    destruct urls as [|u' urls]; [reflexivity|].
    rewrite last_cons_cons.
    destruct (last (u' :: urls)) eqn:E; [reflexivity|].
    apply last_None in E. discriminate.
Qed.

(** When the payload of the download page lists entries that all carry
    an mp3 URL, [parse_album] on a fresh downloader keeps the URL of
    the last entry; with no entry at all the URL stays unset, and the
    download that follows is refused before any request. *)
Theorem parse_album_last_entry_wins json_loads html_start_tags http_get
  (a : Item) (dir : option string) (w : World) (u body : string)
  (blob : json) (entries urls : list json) :
  download_url a = Some u ->
  http_get (w_net w) u = Some body ->
  feed json_loads html_start_tags body None = (Ok tt, Some blob) ->
  py_getitem (data (Some blob)) "digital_items" = Ok (JArr entries) ->
  Forall2 mp3_url entries urls ->
  let r := parse_album json_loads html_start_tags http_get
             (new_DownloadAlbum a dir) w in
  (exists self', fst r = Ok self' /\
     parsed_url self' = last urls /\
     datablob self' = Some blob /\
     album self' = a /\
     (urls = [] ->
      fst (session_get http_get (url_of_json (parsed_url self')) (snd r))
      = Raise MissingSchema)) /\
  snd r = mkWorld (w_fs w) (w_net w ++ [u])%list (w_out w).
Proof.
  intros Hu Hb Hfeed Hitems Hurls. cbn zeta.
  unfold parse_album, bind, session_get. cbn [album new_DownloadAlbum datablob parsed_url].
  rewrite Hu, Hb, Hfeed, Hitems. cbn [result_bind py_iter].
  rewrite (parse_downloads_last entries urls Hurls None).
  unfold lift_result, ret. cbn [fst snd]. split; [|reflexivity].
  eexists. split; [reflexivity|]. cbn [parsed_url datablob album].
  split; [now destruct (last urls)|]. split; [reflexivity|].
  split; [reflexivity|]. intros ->. reflexivity.
Qed.

(** ** The walk, when it goes wrong *)

Lemma cursors_not_nil (tok : string) (ps : list Page) : cursors tok ps <> [].
Proof. destruct ps; discriminate. Qed.

Lemma last_default {A} (l : list A) (d1 d2 : A) :
  l <> [] -> List.last l d1 = List.last l d2.
Proof.
  induction l as [|a l IH]; [congruence|]. intros _.
  destruct l as [|b l]; [reflexivity|].
  change (List.last (b :: l) d1 = List.last (b :: l) d2).
  apply IH. discriminate.
Qed.

Lemma get_collection_walk (pre : list Page) :
  forall (rest : list Page) (fan : Z) (tok : string) (seed : list Item)
         (log : list Post) (d : nat),
  Forall (fun p => page_items p <> [] /\ is_Some (p_redownload_urls p)) pre ->
  get_collection (length pre + d) fan tok (Some seed)
                 (mkServer (pre ++ rest) log) =
  get_collection d fan (List.last (cursors tok pre) tok)
    (Some (seed ++ concat (map page_joined pre))%list)
    (mkServer rest
       (log ++ map (fun t => mkPost fan t 100)
                   (removelast (cursors tok pre)))%list).
Proof.
  induction pre as [|p pre IH]; intros rest fan tok seed log d Hpre.
  - cbn. now rewrite !app_nil_r.
  - apply Forall_cons in Hpre as [[Hne [up Hup]] Hpre].
    cbn [length Nat.add get_collection app].
    unfold bind at 1. unfold session_post at 1. cbn [pages posts].
    rewrite Hup.
    assert (Hit : match p_items p with Some l => l | None => [] end = page_items p)
      by reflexivity.
    rewrite Hit.
    destruct (map_download_urls up (page_items p)) as [|i items] eqn:Hj.
    { apply (f_equal length) in Hj. rewrite map_download_urls_length in Hj.
      destruct (page_items p); [congruence | discriminate]. }
    rewrite <- Hj.
    assert (Hseed : match seed with [] => [] | _ :: _ => seed end = seed)
      by (destruct seed; reflexivity).
    rewrite Hseed. rewrite (IH rest fan _ _ _ d Hpre).
    pose proof (last_map_download_urls up (page_items p) i Hne) as Hl.
    destruct (last (page_items p)) as [x|] eqn:Hx; [|discriminate Hl].
    cbn in Hl. injection Hl as Hl.
    cbn [cursors]. rewrite Hx, Hl.
    set (cs := cursors (token x) pre).
    assert (Hcs : cs <> []) by apply cursors_not_nil.
    f_equal.
    + destruct cs as [|c cs]; [congruence|].
      change (List.last (c :: cs) (token x) = List.last (c :: cs) tok).
      now apply last_default.
    + cbn [map concat]. unfold page_joined at 2. rewrite Hup.
      now rewrite <- List.app_assoc.
    + f_equal. rewrite <- List.app_assoc. f_equal.
      destruct cs; [congruence | reflexivity].
Qed.

Lemma cursors_split (tok : string) (ps : list Page) :
  (removelast (cursors tok ps) ++ [List.last (cursors tok ps) tok])%list
  = cursors tok ps.
Proof. symmetry. apply app_removelast_last, cursors_not_nil. Qed.

(** A response without [redownload_urls] ends the walk with a
    [KeyError], even when the page is empty and however many pages came
    before it: the items gathered so far are not returned. *)
Theorem get_collection_missing_urls (pre : list Page) (bad : Page)
  (rest : list Page) (fan : Z) (tok : string) (albums : option (list Item))
  (log : list Post) (depth : nat) :
  Forall (fun p => page_items p <> [] /\ is_Some (p_redownload_urls p)) pre ->
  p_redownload_urls bad = None ->
  (length pre < depth)%nat ->
  get_collection depth fan tok albums (mkServer (pre ++ bad :: rest) log) =
  (Raise (KeyError "redownload_urls"),
   mkServer rest (log ++ map (fun t => mkPost fan t 100) (cursors tok pre))%list).
Proof.
  intros Hpre Hbad Hd.
  assert (E : get_collection depth fan tok albums (mkServer (pre ++ bad :: rest) log)
            = get_collection depth fan tok (Some (seed_items albums))
                (mkServer (pre ++ bad :: rest) log)).
  { destruct albums; [reflexivity | apply get_collection_no_seed]. }
  rewrite E. clear E.
  replace depth with (length pre + S (depth - length pre - 1))%nat by lia.
  rewrite get_collection_walk by exact Hpre.
  cbn [get_collection]. unfold bind, session_post. cbn [pages posts].
  rewrite Hbad. unfold raise. f_equal. f_equal.
  rewrite <- List.app_assoc. f_equal.
  pose proof (cursors_split tok pre) as Hs.
  apply (f_equal (map (fun t => mkPost fan t 100))) in Hs.
  rewrite map_app in Hs. exact Hs.
Qed.

(** When the server stops answering, the error of the request ends the
    walk: the pages received before are lost with it. *)
Theorem get_collection_server_down (pre : list Page)
  (fan : Z) (tok : string) (albums : option (list Item))
  (log : list Post) (depth : nat) :
  Forall (fun p => page_items p <> [] /\ is_Some (p_redownload_urls p)) pre ->
  (length pre < depth)%nat ->
  get_collection depth fan tok albums (mkServer pre log) =
  (Raise ConnectionError,
   mkServer [] (log ++ map (fun t => mkPost fan t 100) (cursors tok pre))%list).
Proof.
  intros Hpre Hd.
  assert (E : get_collection depth fan tok albums (mkServer pre log)
            = get_collection depth fan tok (Some (seed_items albums))
                (mkServer (pre ++ []) log)).
  { rewrite app_nil_r. destruct albums; [reflexivity | apply get_collection_no_seed]. }
  rewrite E. clear E.
  replace depth with (length pre + S (depth - length pre - 1))%nat by lia.
  rewrite get_collection_walk by exact Hpre.
  cbn [get_collection]. unfold bind, session_post. cbn [pages posts].
  f_equal. f_equal.
  rewrite <- List.app_assoc. f_equal.
  pose proof (cursors_split tok pre) as Hs.
  apply (f_equal (map (fun t => mkPost fan t 100))) in Hs.
  rewrite map_app in Hs. exact Hs.
Qed.

(** ** More on the cookie jar *)

Lemma skipped_true_spec (now : Q) (c : RawCookie) :
  skipped now c = true <->
  exists e, c_expiry c = Some e /\ e <> 0 /\ (inject_Z e < now)%Q.
Proof.
  unfold skipped. split.
  - destruct (c_expiry c) as [e|]; [|discriminate]. intros H.
    apply andb_prop in H as [H1 H2]. exists e. split; [reflexivity|]. split.
    + apply negb_true_iff, Z.eqb_neq in H1. exact H1.
    + now apply before_spec.
  - intros (e & -> & Hne & Hlt). apply andb_true_intro. split.
    + now apply negb_true_iff, Z.eqb_neq.
    + now apply before_spec.
Qed.

Lemma add_cookie_is_Some (now : Q) (jar : gmap CookieKey (string * option Z))
  (c : RawCookie) (k : CookieKey) :
  is_Some (jar !! k) -> is_Some (add_cookie now jar c !! k).
Proof.
  intros H. unfold add_cookie. destruct (skipped now c); [exact H|].
  destruct (decide (cookie_key c = k)) as [->|Hne].
  - rewrite lookup_insert_eq. eauto.
  - now rewrite lookup_insert_ne.
Qed.

Lemma fold_add_cookie_is_Some (now : Q) (cookies : list RawCookie) :
  forall (jar : gmap CookieKey (string * option Z)) k,
  is_Some (jar !! k) \/
  (exists c, c ∈ cookies /\ cookie_key c = k /\ skipped now c = false) ->
  is_Some (fold_left (add_cookie now) cookies jar !! k).
Proof.
  induction cookies as [|c0 cookies IH]; intros jar k H.
  - destruct H as [H | (c & Hin & _)]; [exact H|]. now apply elem_of_nil in Hin.
  - cbn [fold_left]. apply IH.
    destruct H as [H | (c & Hin & Hk & Hs)].
    + left. now apply add_cookie_is_Some.
    + apply elem_of_cons in Hin as [-> | Hin].
      * left. unfold add_cookie. rewrite Hs, Hk, lookup_insert_eq. eauto.
      * right. exists c. auto.
Qed.

Lemma fold_add_cookie_filter (now : Q) (cookies : list RawCookie) :
  forall jar : gmap CookieKey (string * option Z),
  fold_left (add_cookie now) cookies jar =
  fold_left (add_cookie now)
            (List.filter (fun c => negb (skipped now c)) cookies) jar.
Proof.
  induction cookies as [|c cookies IH]; intros jar; [reflexivity|].
  cbn [fold_left List.filter]. destruct (skipped now c) eqn:Hs; cbn [negb].
  - unfold add_cookie at 2. rewrite Hs. apply IH.
  - cbn [fold_left]. apply IH.
Qed.

(** The keys of the store are exactly the (domain, path, name) of the
    records whose expiry is not at once set, non-zero and before the
    current time; and the records that are dropped leave no trace: the
    store is the one built from the list without them. *)
Theorem parse_cookie_list_keys (now : Q) (cookies : list RawCookie) :
  (forall k,
     is_Some (parse_cookie_list now cookies !! k) <->
     exists c, c ∈ cookies /\ cookie_key c = k /\
       ~ (exists e, c_expiry c = Some e /\ e <> 0 /\ (inject_Z e < now)%Q)) /\
  parse_cookie_list now cookies =
  parse_cookie_list now (List.filter (fun c => negb (skipped now c)) cookies).
Proof.
  split; [|apply fold_add_cookie_filter].
  intros k. unfold parse_cookie_list. split.
  - intros [x Hx].
    apply fold_add_cookie_origin in Hx as [Hx | (c & Hin & Hs & Hk & _)].
    { rewrite lookup_empty in Hx. discriminate. }
    exists c. split; [exact Hin|]. split; [exact Hk|].
    intros He. apply skipped_true_spec in He. congruence.
  - intros (c & Hin & Hk & Hne). apply fold_add_cookie_is_Some. right.
    exists c. split; [exact Hin|]. split; [exact Hk|].
    destruct (skipped now c) eqn:Hs; [|reflexivity].
    exfalso. apply Hne. now apply skipped_true_spec.
Qed.

(** ** The login script *)

Section ScriptProofs.

Variable browser_fails : list BrowserAction -> BrowserAction -> option Exn.
Variable browser_cookies : list BrowserAction -> list RawCookie.

Lemma follows_act_bind {A} (a : BrowserAction) (script : list BrowserAction)
  (post : A -> LoginWorld -> Prop) (k : M LoginWorld A) :
  follows_script browser_fails script post k ->
  follows_script browser_fails (a :: script) post (act browser_fails a ;;; k).
Proof.
  intros Hk w. unfold bind, act.
  destruct (browser_fails (browser_actions (l_log w)) a) as [e|] eqn:Hf;
    cbn [fst snd l_fs l_log].
  - split; [reflexivity|]. exists [a]. split; [|split; [|split]].
    + now apply prefix_cons, prefix_nil.
    + reflexivity.
    + discriminate.
    + intros e0 [= <-]. exists [], a. split; [reflexivity|].
      cbn [map]. now rewrite app_nil_r.
  - set (w1 := mkLoginWorld (l_fs w) (l_log w ++ [EvBrowser a])%list).
    destruct (Hk w1) as (Hfs & att & Hpre & Hlog & Hok & Hraise).
    split; [exact Hfs|]. exists (a :: att). split; [|split; [|split]].
    + now apply prefix_cons.
    + rewrite Hlog. unfold w1. cbn [l_log map]. now rewrite <- List.app_assoc.
    + intros x Hx. destruct (Hok x Hx) as [-> Hp]. now split.
    + intros e He. destruct (Hraise e He) as (before & a' & -> & Hb).
      exists (a :: before), a'. split; [reflexivity|].
      unfold w1 in Hb. cbn [l_log map] in *.
      now rewrite <- List.app_assoc in Hb.
Qed.

Lemma login_steps_script (username password : string) :
  follows_script browser_fails (login_script username password)
    (fun cookies w' => cookies = browser_cookies (browser_actions (l_log w')))
    (login_steps browser_fails browser_cookies username password).
Proof.
  unfold login_steps, login_script, wait_for_id, get_cookies.
  repeat apply follows_act_bind.
  intros w. cbn [fst snd]. split; [reflexivity|]. exists [].
  split; [reflexivity|]. split; [now rewrite app_nil_r|]. split.
  - intros a [= <-]. split; reflexivity.
  - discriminate.
Qed.

(** The login follows its script: navigate, wait for the user name
    field, type the user name, type the password, submit, wait for the
    post-login marker, read the cookies.  It stops at the first action
    that fails, with that action's error; when it returns, every action
    was attempted once and the result is what the browser hands out
    after the last one.  No file is touched. *)
Theorem login_steps_follow_script (username password : string) (w : LoginWorld) :
  let r := login_steps browser_fails browser_cookies username password w in
  l_fs (snd r) = l_fs w /\
  exists attempted,
    attempted `prefix_of` login_script username password /\
    l_log (snd r) = (l_log w ++ map EvBrowser attempted)%list /\
    (forall cookies, fst r = Ok cookies ->
       attempted = login_script username password /\
       cookies = browser_cookies (browser_actions (l_log (snd r)))) /\
    (forall e, fst r = Raise e ->
       exists before a,
         attempted = (before ++ [a])%list /\
         browser_fails
           (browser_actions (l_log w ++ map EvBrowser before)%list) a = Some e).
Proof. exact (login_steps_script username password w). Qed.

End ScriptProofs.

(** ** The cache, from one run to the next *)

Section NextRun.

Variable browser_fails : list BrowserAction -> BrowserAction -> option Exn.
Variable browser_cookies : list BrowserAction -> list RawCookie.
Variable json_dump : list RawCookie -> string.
Variable json_load : string -> option (list RawCookie).
Variable now_start now_login : Q.

Lemma browser_actions_app (l1 l2 : list Event) :
  browser_actions (l1 ++ l2) = (browser_actions l1 ++ browser_actions l2)%list.
Proof. apply omap_app. Qed.

Lemma browser_actions_map (l : list BrowserAction) :
  browser_actions (map EvBrowser l) = l.
Proof.
  induction l as [|a l IH]; [reflexivity|].
  change (a :: browser_actions (map EvBrowser l) = a :: l). now rewrite IH.
Qed.

Lemma cached_jar_None_not_dir (w : LoginWorld) :
  fst (cached_jar json_load now_start w) = Ok None ->
  is_dir (l_fs w) (resolve ".cookies") = false.
Proof.
  unfold cached_jar, read_file.
  destruct (path_exists (l_fs w) (resolve ".cookies")) eqn:He.
  - destruct (is_dir (l_fs w) (resolve ".cookies")); [discriminate | reflexivity].
  - intros _. unfold path_exists in He. now apply orb_false_iff in He as [He _].
Qed.

Lemma bandcamp_login_fresh_eq (username password : string) (w : LoginWorld) :
  fst (cached_jar json_load now_start w) = Ok None ->
  bandcamp_login browser_fails browser_cookies json_dump json_load
    now_start now_login username password w =
  match (act browser_fails Firefox ;;;
         try_finally (login_steps browser_fails browser_cookies
                        username password)
                     (act browser_fails Quit)) w with
  | (Ok cs, w1) =>
      (write_cache json_dump cs ;;; ret (parse_cookie_list now_login cs)) w1
  | (Raise e, w1) => (Raise e, w1)
  end.
Proof.
  intros Hc. unfold bandcamp_login. unfold bind at 1.
  pose proof (cached_jar_state json_load now_start w) as Hs.
  destruct (cached_jar json_load now_start w) as [r w']; cbn [fst snd] in *.
  subst w' r. unfold bind at 1 2 4.
  destruct (act browser_fails Firefox w) as [[[]|e] w0]; [|reflexivity].
  now destruct (try_finally _ _ w0) as [[cs|e] w1].
Qed.

(** The cache is written to be read back: after a login through the
    browser that succeeded, the next call -- whatever the credentials
    and the clock -- returns the store built from the same cookie list
    without starting the browser, provided the JSON codec reads back
    what it wrote and the list still gives both cookies at that time. *)
Theorem fresh_login_then_cached (username password : string) (w : LoginWorld)
  (jar : gmap CookieKey (string * option Z))
  (username' password' : string) (now_start' now_login' : Q) :
  let login := bandcamp_login browser_fails browser_cookies json_dump json_load
                 now_start now_login username password in
  let cs := browser_cookies
              (browser_actions (l_log w) ++
               Firefox :: login_script username password)%list in
  fst (cached_jar json_load now_start w) = Ok None ->
  fst (login w) = Ok jar ->
  json_load (json_dump cs) = Some cs ->
  holds_cookie (parse_cookie_list now_start' cs) "client_id" ->
  holds_cookie (parse_cookie_list now_start' cs) "identity" ->
  jar = parse_cookie_list now_login cs /\
  bandcamp_login browser_fails browser_cookies json_dump json_load
    now_start' now_login' username' password' (snd (login w)) =
  (Ok (parse_cookie_list now_start' cs), snd (login w)).
Proof.
  cbn zeta. intros Hmiss Hok Hcodec H1 H2.
  pose proof (cached_jar_None_not_dir w Hmiss) as Hnd.
  rewrite (bandcamp_login_fresh_eq username password w Hmiss) in *.
  pose proof (fresh_login_frame browser_fails browser_cookies username password w)
    as Hfs.
  (* what the browser part returns *)
  assert (Hcs : forall cs0 w1,
            (act browser_fails Firefox ;;;
             try_finally (login_steps browser_fails browser_cookies
                            username password)
                         (act browser_fails Quit)) w = (Ok cs0, w1) ->
            cs0 = browser_cookies
                    (browser_actions (l_log w) ++
                     Firefox :: login_script username password)%list).
  { intros cs0 w1. unfold bind at 1. unfold act at 1.
    destruct (browser_fails (browser_actions (l_log w)) Firefox); [discriminate|].
    set (w0 := mkLoginWorld _ _). unfold try_finally.
    destruct (login_steps_script browser_fails browser_cookies
                username password w0) as (_ & att & _ & Hlog & Hres & _).
    destruct (login_steps browser_fails browser_cookies username password w0)
      as [rb wb]; cbn [fst snd] in *.
    destruct (act browser_fails Quit wb) as [[[]|e] wq]; [|discriminate].
    intros [= -> <-]. destruct (Hres cs0 eq_refl) as [-> ->].
    rewrite Hlog. unfold w0. cbn [l_log]. f_equal.
    rewrite !browser_actions_app, browser_actions_map.
    rewrite <- List.app_assoc. reflexivity. }
  destruct ((act browser_fails Firefox ;;;
             try_finally (login_steps browser_fails browser_cookies
                            username password)
                         (act browser_fails Quit)) w) as [[cs0|e] w1];
    cbn [fst snd] in *; [|discriminate].
  rewrite (Hcs cs0 w1 eq_refl) in *. clear Hcs.
  set (cs := browser_cookies _) in *.
  assert (Hd1 : is_dir (l_fs w1) (resolve ".cookies") = false) by now rewrite Hfs.
  destruct (write_cache_result json_dump cs w1 Hd1) as (Hw & Hfile & Hdirs & _).
  unfold bind, ret in *.
  destruct (write_cache json_dump cs w1) as [[[]|e] w2]; cbn [fst snd] in *;
    [|discriminate].
  injection Hok as <-. split; [reflexivity|].
  assert (Hnd2 : is_dir (l_fs w2) (resolve ".cookies") = false).
  { unfold is_dir in *. now rewrite Hdirs. }
  unfold bandcamp_login. unfold bind at 1.
  rewrite (cached_jar_hit json_load now_start' w2 (json_dump cs) cs).
  - reflexivity.
  - unfold path_exists, is_file. rewrite Hfile. apply orb_true_r.
  - unfold read_file. now rewrite Hnd2, Hfile.
  - exact Hcodec.
  - exact H1.
  - exact H2.
Qed.

End NextRun.

(** ** One marker per item *)

Lemma str_int_inj (a b : Z) : str_int a = str_int b -> a = b.
Proof.
  unfold str_int. intros H.
  assert (Hn : forall z, Z.to_int z <> Decimal.Pos Decimal.Nil /\
                         Z.to_int z <> Decimal.Neg Decimal.Nil).
  { intros [|p|p]; cbn; split; try discriminate;
      intros [= Hp]; now apply (Unsigned.to_uint_nonnil p). }
  apply (f_equal NilZero.int_of_string) in H.
  rewrite !NilZero.isi in H by apply Hn.
  injection H as H. apply (f_equal Z.of_int) in H.
  now rewrite !DecimalZ.of_to in H.
Qed.

Lemma str_app_inv_tail (s1 s2 t : string) : s1 ++ t = s2 ++ t -> s1 = s2.
Proof.
  revert s2. induction s1 as [|c s1 IH]; intros [|c2 s2] H.
  - reflexivity.
  - apply (f_equal String.length) in H. cbn in H.
    rewrite str_length_app in H. lia.
  - apply (f_equal String.length) in H. cbn in H.
    rewrite str_length_app in H. lia.
  - cbn in H. injection H as -> H. f_equal. now apply IH.
Qed.

(** The lock marker stands for one item of one directory: two
    downloaders have the same marker exactly when they resolve to the
    same directory and their items have the same [item_id]; the same
    holds for the zip file. *)
Theorem lock_marker_one_to_one (self1 self2 : DownloadAlbum) :
  (lock_of self1 = lock_of self2 <->
   dir_of self1 = dir_of self2 /\
   item_id (album self1) = item_id (album self2)) /\
  (zip_of self1 = zip_of self2 <->
   dir_of self1 = dir_of self2 /\
   item_id (album self1) = item_id (album self2)).
Proof.
  rewrite !lock_of_eq, !zip_of_eq. unfold lock_name, zip_name.
  destruct (dir_of self1) as [a1 s1], (dir_of self2) as [a2 s2]. cbn [fst snd].
  split; split.
  - intros [= -> Hn ->]. split; [reflexivity|].
    now apply str_app_inv_tail, str_int_inj in Hn.
  - intros [[= -> ->] ->]. reflexivity.
  - intros [= -> Hn ->]. split; [reflexivity|].
    now apply str_app_inv_tail, str_int_inj in Hn.
  - intros [[= -> ->] ->]. reflexivity.
Qed.

(** ** A run over a collection that was fetched before *)

Lemma dir_of_same (self self' : DownloadAlbum) :
  album self' = album self -> base_dir self' = base_dir self ->
  dir_of self' = dir_of self.
Proof. intros Ha Hb. unfold dir_of, dir_string. now rewrite Ha, Hb. Qed.

(** When every item of the list has its lock marker, the loop of the
    program changes no file, whatever the server answers; if it runs
    to the end, it has requested the download page of each item, once
    and in order, and has printed one skip notice per item. *)
Theorem rerun_changes_no_file
  json_loads html_start_tags http_get zip_members
  (music_directory : string) (albums : list Item) :
  forall w : World,
  Forall (fun a =>
            path_exists (w_fs w)
              (lock_of (new_DownloadAlbum a (Some music_directory))) = true /\
            path_exists (w_fs w)
              (dir_of (new_DownloadAlbum a (Some music_directory))) = true)
         albums ->
  let r := process_albums json_loads html_start_tags http_get zip_members
             music_directory albums w in
  w_fs (snd r) = w_fs w /\
  (fst r = Ok tt ->
   w_net (snd r) = (w_net w ++ omap download_url albums)%list /\
   w_out (snd r) =
     (w_out w ++
      map (fun a => ("Skipping already fetched album, " ++
                     band_name a ++ " - " ++ item_title a)%string) albums)%list).
Proof.
  induction albums as [|a albums IH]; intros w Hall; cbn zeta.
  { cbn. rewrite !app_nil_r. auto. }
  apply Forall_cons in Hall as [[Hlock Hdir] Hall].
  remember (process_albums json_loads html_start_tags http_get zip_members
              music_directory (a :: albums) w) as r eqn:Hr.
  cbn [process_albums] in Hr. unfold bind at 1 in Hr.
  unfold process_album in Hr. unfold bind at 1 in Hr.
  set (self := new_DownloadAlbum a (Some music_directory)) in *.
  pose proof (parse_album_frame json_loads html_start_tags http_get self w) as Hp.
  cbn zeta in Hp.
  destruct (parse_album json_loads html_start_tags http_get self w)
    as [[self'|e] w0]; cbn [fst snd] in Hp; destruct Hp as (Hfs & Hout & Hnet & Hsame).
  2: { subst r. cbn [fst snd]. split; [exact Hfs | discriminate]. }
  destruct (Hsame self' eq_refl) as [Ha Hb].
  rewrite fetch_album_skip_eq in Hr.
  2: { rewrite (dir_of_same self self' Ha Hb), Hfs. exact Hdir. }
  2: { rewrite (lock_of_same self self' Ha Hb), Hfs. exact Hlock. }
  set (w1 := mkWorld _ _ _) in Hr.
  assert (Hall1 : Forall (fun a0 =>
            path_exists (w_fs w1)
              (lock_of (new_DownloadAlbum a0 (Some music_directory))) = true /\
            path_exists (w_fs w1)
              (dir_of (new_DownloadAlbum a0 (Some music_directory))) = true)
         albums).
  { unfold w1. cbn [w_fs]. now rewrite Hfs. }
  destruct (IH w1 Hall1) as [Hfs1 Hrun]. cbn zeta in Hfs1, Hrun.
  rewrite <- Hr in Hfs1, Hrun.
  split; [rewrite Hfs1; unfold w1; cbn [w_fs]; exact Hfs|].
  intros Hok. destruct (Hrun Hok) as [Hn Ho]. split.
  - rewrite Hn. unfold w1. cbn [w_net]. rewrite Hnet.
    unfold self in Ha. cbn [album new_DownloadAlbum] in Ha.
    unfold self. cbn [album new_DownloadAlbum].
    change (omap download_url (a :: albums))
      with (match download_url a with
            | Some u => u :: omap download_url albums
            | None => omap download_url albums
            end).
    destruct (download_url a) as [u|].
    + now rewrite <- List.app_assoc.
    + now rewrite app_nil_r.
  - rewrite Ho. unfold w1. cbn [w_out map]. rewrite Hout, <- List.app_assoc.
    unfold album_name. rewrite Ha. reflexivity.
Qed.

(** ** More worked runs *)

Lemma download_dir_idempotent_witness :
  download_dir ex_downloader (snd (download_dir ex_downloader ex_new_world)) =
  (Ok "Music/Band/Title", snd (download_dir ex_downloader ex_new_world)).
Proof.
  apply (download_dir_idempotent ex_downloader ex_new_world "Music/Band/Title").
  vm_compute. reflexivity.
Defined.

Lemma download_writes_body_witness :
  exists u body,
    url_of_json (parsed_url ex_downloader) = Some u /\
    ex_http_get (w_net ex_new_world) u = Some body /\
    files (w_fs (snd (download ex_http_get ex_downloader ex_new_world)))
      !! zip_of ex_downloader = Some body.
Proof.
  destruct (download_writes_body ex_http_get ex_downloader ex_new_world)
    as (u & body & H1 & H2 & H3 & _).
  - vm_compute. reflexivity.
  - exists u, body. auto.
Defined.

Lemma download_without_response_witness :
  files (w_fs (snd (download ex_http_down ex_downloader ex_raw_world)))
    !! zip_of ex_downloader = Some "".
Proof.
  apply (download_without_response ex_http_down ex_downloader ex_raw_world).
  - vm_compute. reflexivity.
  - vm_compute. reflexivity.
  - right. exists "https://files.example/12". split; reflexivity.
Defined.

Lemma extract_not_archive_renames_witness :
  fst (extract ex_not_zip ex_downloader ex_raw_world) = Ok tt.
Proof.
  apply (extract_not_archive_renames ex_not_zip ex_downloader ex_raw_world
           "ID3 raw audio").
  - vm_compute. reflexivity.
  - vm_compute. reflexivity.
  - vm_compute. reflexivity.
  - reflexivity.
  - vm_compute. reflexivity.
  - vm_compute. reflexivity.
Defined.



(** A damaged member ends the extraction in [BadZipFile], which
    [extract] handles like a stream that is no archive: the fetch
    returns, the archive stands under [Title.mp3], the member after
    the damaged one was never extracted, and the item is locked. *)
Example damaged_archive_is_locked :
  let r := fetch_album ex_http_get ex_damaged_zip ex_downloader ex_new_world in
  fst r = Ok tt /\
  path_exists (w_fs (snd r)) (lock_of ex_downloader) = true /\
  files (w_fs (snd r)) !! zip_of ex_downloader = None /\
  files (w_fs (snd r)) !! mp3_of ex_downloader = Some "ID3 raw audio" /\
  files (w_fs (snd r)) !! (false, ["cover.jpg"; "Title"; "Band"; "Music"])
    = Some "JFIF" /\
  files (w_fs (snd r)) !! (false, ["02.mp3"; "disc1"; "Title"; "Band"; "Music"])
    = None.
Proof. vm_compute. repeat split. Qed.

Lemma extract_archive_populates_witness :
  files (w_fs (snd (extract ex_damaged_zip ex_downloader ex_raw_world)))
    !! mp3_of ex_downloader = Some "ID3 raw audio".
Proof.
  destruct (extract_archive_populates ex_damaged_zip ex_downloader ex_raw_world
              "ID3 raw audio"
              [ mkMember ["cover.jpg"] false "JFIF" None;
                mkMember ["disc1"; "01.mp3"] false "" (Some (ReadFails BadZipFile));
                mkMember ["disc1"; "02.mp3"] false "ID3" None ]) as [_ H].
  - vm_compute. reflexivity.
  - vm_compute. reflexivity.
  - vm_compute. reflexivity.
  - reflexivity.
  - destruct H as (_ & _ & H & _); [| |exact H].
    + intros m Hm Heq.
      repeat (apply elem_of_cons in Hm as [->|Hm]);
        [vm_compute in Heq; discriminate Heq ..|].
      now apply elem_of_nil in Hm.
    + vm_compute. discriminate.
Defined.

Lemma fetch_album_then_skips_witness :
  fst (fetch_album ex_http_get ex_zip ex_downloader
         (snd (fetch_album ex_http_get ex_zip ex_downloader ex_new_world)))
  = Ok tt.
Proof.
  rewrite (fetch_album_then_skips ex_http_get ex_zip ex_downloader ex_new_world).
  - reflexivity.
  - vm_compute. reflexivity.
Defined.

Lemma feed_last_pagedata_wins_witness :
  feed ex_loads_digit ex_two_pagedata "<div ...>" None =
  (Ok tt, Some (JObj [("n", JNum 2)])).
Proof.
  apply (feed_last_pagedata_wins ex_loads_digit ex_two_pagedata "<div ...>"
           [ mkTag "div" [("id", Some "pagedata"); ("data-blob", Some "1")];
             mkTag "p" [] ]
           [ mkTag "span" [] ]
           (mkTag "div" [("id", Some "pagedata"); ("data-blob", Some "2")])
           "2").
  - reflexivity.
  - reflexivity.
  - reflexivity.
  - reflexivity.
  - reflexivity.
  - reflexivity.
  - repeat constructor. intros [H _]. discriminate.
Defined.

Lemma feed_bad_pagedata_raises_witness :
  feed ex_loads_digit ex_bad_pagedata "<html>" None = (Raise TypeError, None).
Proof.
  apply (feed_bad_pagedata_raises ex_loads_digit ex_bad_pagedata "<html>"
           [mkTag "html" []] [mkTag "p" []]
           (mkTag "div" [("id", Some "pagedata")]) None None);
    reflexivity.
Defined.

Lemma parse_album_last_entry_wins_witness :
  exists self',
    fst (parse_album ex_two_entries ex_tags_pagedata ex_http_get
           (new_DownloadAlbum ex_item None) ex_new_world) = Ok self' /\
    parsed_url self' = Some (JStr "https://b").
Proof.
  destruct (parse_album_last_entry_wins ex_two_entries ex_tags_pagedata ex_http_get
              ex_item None ex_new_world "https://bandcamp.com/download?id=12"
              "ID3 raw audio"
              (JObj [("digital_items",
                      JArr [ex_entry "https://a"; ex_entry "https://b"])])
              [ex_entry "https://a"; ex_entry "https://b"]
              [JStr "https://a"; JStr "https://b"])
    as [(self' & H1 & H2 & _) _].
  - reflexivity.
  - reflexivity.
  - reflexivity.
  - reflexivity.
  - repeat constructor; eexists _, _; repeat split; reflexivity.
  - exists self'. split; [exact H1 | exact H2].
Defined.

Lemma get_collection_missing_urls_witness :
  fst (get_collection 5 42 "t0" None
         (mkServer ([ex_page] ++ ex_bad_page :: [])%list []))
  = Raise (KeyError "redownload_urls").
Proof.
  rewrite (get_collection_missing_urls [ex_page] ex_bad_page [] 42 "t0" None [] 5).
  - reflexivity.
  - repeat constructor; [discriminate | eexists; reflexivity].
  - reflexivity.
  - cbn. lia.
Defined.

Lemma get_collection_server_down_witness :
  fst (get_collection 5 42 "t0" None (mkServer [ex_page] []))
  = Raise ConnectionError.
Proof.
  rewrite (get_collection_server_down [ex_page] 42 "t0" None [] 5).
  - reflexivity.
  - repeat constructor; [discriminate | eexists; reflexivity].
  - cbn. lia.
Defined.

Lemma rerun_changes_no_file_witness :
  w_fs (snd (process_albums ex_json_loads ex_tags_pagedata ex_http_get ex_not_zip
               "Music" [ex_item; ex_item] ex_locked_world))
  = w_fs ex_locked_world.
Proof.
  apply (rerun_changes_no_file ex_json_loads ex_tags_pagedata ex_http_get
           ex_not_zip "Music" [ex_item; ex_item] ex_locked_world).
  repeat constructor; vm_compute; reflexivity.
Defined.

Lemma fresh_login_then_cached_witness :
  let w1 := snd (bandcamp_login ex_browser_ok ex_browser_cookies ex_json_dump
                   ex_json_load_fresh 100 200 "user" "secret" ex_login_world) in
  bandcamp_login ex_browser_ok ex_browser_cookies ex_json_dump
    ex_json_load_fresh 300 400 "other" "word" w1 =
  (Ok (parse_cookie_list 300 (ex_browser_cookies [])), w1).
Proof.
  cbn zeta.
  assert (Hok : exists jar,
            fst (bandcamp_login ex_browser_ok ex_browser_cookies ex_json_dump
                   ex_json_load_fresh 100 200 "user" "secret" ex_login_world)
            = Ok jar)
    by (eexists; reflexivity).
  destruct Hok as [jar Hok].
  apply (fun H1 H3 H4 H5 =>
           proj2 (fresh_login_then_cached ex_browser_ok ex_browser_cookies
                    ex_json_dump ex_json_load_fresh 100 200 "user" "secret"
                    ex_login_world jar "other" "word" 300 400 H1 Hok H3 H4 H5)).
  - reflexivity.
  - reflexivity.
  - exists ("bandcamp.com", "/", "client_id", ("c0ffee", None)).
    split; [vm_compute; reflexivity | discriminate].
  - exists ("bandcamp.com", "/", "identity", ("me", None)).
    split; [vm_compute; reflexivity | discriminate].
Defined.

(** ** The join on decoded JSON *)

Lemma assoc_dict_set_eq (k : string) (v : json) (kv : list (string * json)) :
  assoc k (dict_set k v kv) = Some v.
Proof.
  induction kv as [|[k' v'] kv IH]; cbn.
  - now rewrite String.eqb_refl.
  - destruct (String.eqb k k') eqn:E; cbn.
    + now rewrite String.eqb_refl.
    + now rewrite E.
Qed.

Lemma assoc_dict_set_ne (k k0 : string) (v : json) (kv : list (string * json)) :
  k0 <> k -> assoc k0 (dict_set k v kv) = assoc k0 kv.
Proof.
  intros Hne. induction kv as [|[k' v'] kv IH]; cbn.
  - now rewrite (proj2 (String.eqb_neq k0 k) Hne).
  - destruct (String.eqb_spec k k') as [<-|Hk]; cbn.
    + now rewrite (proj2 (String.eqb_neq k0 k) Hne).
    + now rewrite IH.
Qed.

Lemma join_one_json py_repr (ju : json) (urls : gmap string string)
  (j : json) (a : Item) :
  represents_urls ju urls -> represents j a ->
  exists kv v,
    j = JObj kv /\
    py_getitem j "sale_item_type" = Ok (JStr (sale_item_type a)) /\
    py_getitem j "sale_item_id" = Ok (JNum (sale_item_id a)) /\
    py_add_str (JStr (sale_item_type a)) (py_str py_repr (JNum (sale_item_id a)))
      = Ok (url_key a) /\
    py_get ju (url_key a) JNull = Ok v /\
    represents (JObj (dict_set "download_url" v kv))
               (set_download_url a (urls !! url_key a)).
Proof.
  intros (ukv & -> & Hu) (kv & -> & H1 & H2 & H3 & H4 & H5 & H6 & _).
  exists kv. eexists. split; [reflexivity|].
  cbn [py_getitem]. rewrite H1, H2. split; [reflexivity|]. split; [reflexivity|].
  split; [reflexivity|]. cbn [py_get]. split; [reflexivity|].
  exists (dict_set "download_url"
            (match assoc (url_key a) ukv with Some v => v | None => JNull end) kv).
  split; [reflexivity|].
  rewrite !assoc_dict_set_ne by discriminate.
  rewrite assoc_dict_set_eq. cbn.
  repeat (split; [assumption|]).
  rewrite Hu. destruct (urls !! url_key a); cbn; auto.
Qed.

Lemma map_download_urls_json_simulates py_repr (ju : json)
  (urls : gmap string string) (js : list json) (items : list Item) :
  represents_urls ju urls ->
  Forall2 represents js items ->
  exists js',
    map_download_urls_json py_repr ju js = Ok js' /\
    Forall2 represents js' (map_download_urls urls items).
Proof.
  intros Hu. induction 1 as [|j a js items Hja _ IH].
  - exists []. split; [reflexivity | constructor].
  - destruct IH as (js' & Hjs & Hrep).
    destruct (join_one_json py_repr ju urls j a Hu Hja)
      as (kv & v & -> & H1 & H2 & H3 & H4 & H5).
    exists (JObj (dict_set "download_url" v kv) :: js').
    cbn [map_download_urls_json map_download_urls].
    rewrite H1. cbn [result_bind]. rewrite H2. cbn [result_bind].
    rewrite H3. cbn [result_bind]. rewrite H4. cbn [result_bind py_setitem].
    rewrite Hjs. cbn [result_bind]. split; [reflexivity|].
    now constructor.
Qed.

(** The join on records is the join on dictionaries: on decoded items
    that carry the fields of records, and a decoded URL dictionary, the
    loop of the program succeeds and its output carries the fields of
    what the join on records computes -- the same order, every field
    kept, [download_url] set to the URL under the item's key and to
    null when the key is absent. *)
Theorem map_download_urls_refines py_repr (ju : json)
  (urls : gmap string string) (js : list json) (items : list Item) :
  represents_urls ju urls ->
  Forall2 represents js items ->
  exists js',
    map_download_urls_json py_repr ju js = Ok js' /\
    length js' = length js /\
    Forall2 represents js' (map_download_urls urls items).
Proof.
  intros Hu Hjs.
  destruct (map_download_urls_json_simulates py_repr ju urls js items Hu Hjs)
    as (js' & H1 & H2).
  exists js'. split; [exact H1|]. split; [|exact H2].
  apply Forall2_length in H2, Hjs.
  rewrite map_download_urls_length in H2. congruence.
Qed.

(** The join does fail on an item that lacks [sale_item_type] or
    [sale_item_id], and on a URL collection that is no dictionary: the
    items before the bad one do not save the call. *)
Theorem map_download_urls_json_errors py_repr (ju : json)
  (urls : gmap string string) (js1 js2 : list json) (items1 : list Item)
  (kv : list (string * json)) :
  represents_urls ju urls ->
  Forall2 represents js1 items1 ->
  (assoc "sale_item_type" kv = None ->
   map_download_urls_json py_repr ju (js1 ++ JObj kv :: js2) =
   Raise (KeyError "sale_item_type")) /\
  (forall t, assoc "sale_item_type" kv = Some (JStr t) ->
   assoc "sale_item_id" kv = None ->
   map_download_urls_json py_repr ju (js1 ++ JObj kv :: js2) =
   Raise (KeyError "sale_item_id")) /\
  (forall n, assoc "sale_item_type" kv = Some (JNum n) ->
   is_Some (assoc "sale_item_id" kv) ->
   map_download_urls_json py_repr ju (js1 ++ JObj kv :: js2) =
   Raise TypeError).
Proof.
  intros Hu. induction 1 as [|j a js items Hja _ IH].
  - cbn [app map_download_urls_json py_getitem]. split; [|split].
    + intros ->. reflexivity.
    + intros t -> ->. reflexivity.
    + intros n -> [i ->]. reflexivity.
  - destruct (join_one_json py_repr ju urls j a Hu Hja)
      as (kv0 & v & -> & H1 & H2 & H3 & H4 & _).
    destruct IH as (IH1 & IH2 & IH3).
    cbn [app map_download_urls_json].
    rewrite H1. cbn [result_bind]. rewrite H2. cbn [result_bind].
    rewrite H3. cbn [result_bind]. rewrite H4. cbn [result_bind py_setitem].
    split; [|split].
    + intros Hk. now rewrite (IH1 Hk).
    + intros t Ht Hi. now rewrite (IH2 t Ht Hi).
    + intros n Hn Hi. now rewrite (IH3 n Hn Hi).
Qed.

(** ** The bootstrap *)

(** The bootstrap from a profile page that has no [pagedata] div: the
    page is requested once, at [https://bandcamp.com/] followed by the
    user name, nothing fails, the payload is the empty mapping, and the
    three accessors give [0], the empty token and no album. *)
Theorem bootstrap_without_pagedata
  json_loads html_start_tags http_get int_of_string py_repr
  (username body : string) (w : World) :
  http_get (w_net w) ("https://bandcamp.com/" ++ username) = Some body ->
  Forall (fun t => ~ (tag_name t = "div" /\
                      attrs_get "id" (tag_attrs t) = Some "pagedata"))
         (html_start_tags body) ->
  exists blob,
    get_albums json_loads html_start_tags http_get username None w =
    (Ok (JObj [], blob),
     mkWorld (w_fs w)
             (w_net w ++ [("https://bandcamp.com/" ++ username)%string])%list
             (w_out w)) /\
    fan_id int_of_string blob = Ok 0 /\
    last_token blob = Ok (JStr "") /\
    albums py_repr blob = Ok [].
Proof.
  intros Hb Hno. exists None.
  unfold get_albums, bind, session_get. rewrite Hb.
  unfold feed. rewrite feed_tags_no_pagedata.
  - cbn. repeat split.
  - eapply Forall_impl; [exact Hno|]. intros t Ht. now apply is_pagedata_false.
Qed.

(** The bootstrap from a profile page whose payload holds a
    collection: [albums] returns one dictionary per entry of
    [item_cache.collection], in the order of the entries, joined with
    [collection_data.redownload_urls]. *)
Theorem albums_joins_collection py_repr (blob : json)
  (cache cd ju : json) (ckv : list (string * json))
  (urls : gmap string string) (items : list Item) :
  truthy blob = true ->
  py_get blob "item_cache" (JObj []) = Ok cache ->
  py_get cache "collection" (JObj []) = Ok (JObj ckv) ->
  py_get blob "collection_data" (JObj []) = Ok cd ->
  py_get cd "redownload_urls" (JObj []) = Ok ju ->
  represents_urls ju urls ->
  Forall2 represents (map snd ckv) items ->
  exists js,
    albums py_repr (Some blob) = Ok js /\
    length js = length ckv /\
    Forall2 represents js (map_download_urls urls items).
Proof.
  intros Ht H1 H2 H3 H4 Hu Hitems.
  destruct (map_download_urls_json_simulates py_repr ju urls (map snd ckv) items
              Hu Hitems) as (js & Hjs & Hrep).
  exists js. unfold albums, data. rewrite Ht, H1. cbn [result_bind].
  rewrite H2. cbn [result_bind]. rewrite H3. cbn [result_bind].
  rewrite H4. cbn [result_bind py_values]. split; [exact Hjs|].
  split; [|exact Hrep].
  apply Forall2_length in Hrep, Hitems.
  rewrite map_download_urls_length in Hrep. rewrite length_map in Hitems.
  congruence.
Qed.

Lemma ex_urls_represented : represents_urls ex_json_urls ex_url_map.
Proof.
  eexists. split; [reflexivity|]. intros k. cbn [assoc]. unfold ex_url_map.
  destruct (String.eqb_spec k "a7") as [->|Hne].
  - now rewrite lookup_singleton_eq.
  - rewrite lookup_singleton_ne by congruence. reflexivity.
Qed.

Lemma ex_item_represented : represents ex_json_item ex_record.
Proof. eexists. repeat split. cbn. now left. Qed.

Lemma map_download_urls_refines_witness :
  exists js',
    map_download_urls_json ex_repr ex_json_urls [ex_json_item] = Ok js' /\
    Forall2 represents js' (map_download_urls ex_url_map [ex_record]).
Proof.
  destruct (map_download_urls_refines ex_repr ex_json_urls ex_url_map
              [ex_json_item] [ex_record]) as (js' & H1 & _ & H2).
  - exact ex_urls_represented.
  - repeat constructor. exact ex_item_represented.
  - exists js'. split; assumption.
Defined.

Lemma map_download_urls_json_errors_witness :
  map_download_urls_json ex_repr ex_json_urls
    ([ex_json_item] ++ JObj [("item_id", JNum 13)] :: [])%list =
  Raise (KeyError "sale_item_type").
Proof.
  apply (map_download_urls_json_errors ex_repr ex_json_urls ex_url_map
           [ex_json_item] [] [ex_record] [("item_id", JNum 13)]).
  - exact ex_urls_represented.
  - repeat constructor. exact ex_item_represented.
  - reflexivity.
Defined.

Lemma bootstrap_without_pagedata_witness :
  exists blob,
    fst (get_albums ex_json_loads ex_tags_plain ex_http_get "fan" None ex_new_world)
    = Ok (JObj [], blob) /\
    fan_id ex_int_of_string blob = Ok 0.
Proof.
  destruct (bootstrap_without_pagedata ex_json_loads ex_tags_plain ex_http_get
              ex_int_of_string ex_repr "fan" "ID3 raw audio" ex_new_world)
    as (blob & H1 & H2 & _).
  - reflexivity.
  - repeat constructor; intros [Ha Hb]; discriminate.
  - exists blob. rewrite H1. split; [reflexivity | exact H2].
Defined.

Lemma albums_joins_collection_witness :
  exists js,
    albums ex_repr (Some ex_profile_blob) = Ok js /\ length js = 1%nat.
Proof.
  destruct (albums_joins_collection ex_repr ex_profile_blob
              (JObj [("collection", JObj [("a7", ex_json_item)])])
              (JObj [("redownload_urls", ex_json_urls)])
              ex_json_urls [("a7", ex_json_item)] ex_url_map [ex_record])
    as (js & H1 & H2 & _).
  - reflexivity.
  - reflexivity.
  - reflexivity.
  - reflexivity.
  - reflexivity.
  - exact ex_urls_represented.
  - repeat constructor. exact ex_item_represented.
  - exists js. split; assumption.
Defined.

(** ** What a fetch leaves alone *)

Lemma keeps_file_bind {A B} (q : Path) (m : M World A) (k : A -> M World B)
  (P : A -> Prop) :
  keeps_file q m ->
  (forall w a, fst (m w) = Ok a -> P a) ->
  (forall a, P a -> keeps_file q (k a)) ->
  keeps_file q (bind m k).
Proof.
  intros Hm HP Hk w. unfold bind.
  specialize (Hm w). specialize (HP w).
  destruct (m w) as [[a|e] w1]; cbn [fst snd] in *; [|exact Hm].
  rewrite (Hk a (HP a eq_refl) w1). exact Hm.
Qed.

Lemma keeps_file_try_except {A} (q : Path) (body handler : M World A)
  (caught : Exn -> bool) :
  keeps_file q body -> keeps_file q handler ->
  keeps_file q (try_except body caught handler).
Proof.
  intros Hb Hh w. unfold try_except. specialize (Hb w).
  destruct (body w) as [[a|e] w1]; cbn [fst snd] in *; [exact Hb|].
  destruct (caught e); [|exact Hb]. now rewrite (Hh w1).
Qed.

Lemma keeps_file_with_fs {A} (q : Path) (f : M FS A) :
  (forall fs, files (snd (f fs)) !! q = files fs !! q) ->
  keeps_file q (with_fs f).
Proof.
  intros Hf w. unfold with_fs. specialize (Hf (w_fs w)).
  now destruct (f (w_fs w)).
Qed.

Lemma keeps_file_download_dir (q : Path) (self : DownloadAlbum) :
  keeps_file q (download_dir self).
Proof.
  intros w. destruct (download_dir_effect self w) as (_ & _ & Hf & _).
  now rewrite Hf.
Qed.

Lemma keeps_file_path (q : Path) (self : DownloadAlbum) (name : string) :
  keeps_file q (d <- download_dir self ;; ret (path_join d name)).
Proof.
  apply (keeps_file_bind _ _ _ (fun _ => True)); auto.
  - apply keeps_file_download_dir.
  - intros d _ w. reflexivity.
Qed.

Lemma files_open_w_ne (p q : Path) (fs : FS) :
  q <> p -> files (snd (open_w p fs)) !! q = files fs !! q.
Proof.
  intros Hne. unfold open_w. destruct (is_dir fs p); [reflexivity|].
  destruct (negb _); [reflexivity|]. cbn. now apply lookup_insert_ne.
Qed.

Lemma files_write_block_ne (p q : Path) (b : string) (fs : FS) :
  q <> p -> files (snd (write_block p b fs)) !! q = files fs !! q.
Proof.
  intros Hne. unfold write_block, modify. cbn [snd].
  destruct (files fs !! p); [|reflexivity]. cbn. now apply lookup_insert_ne.
Qed.

Lemma files_rename_file_ne (src dst q : Path) (fs : FS) :
  q <> src -> q <> dst ->
  files (snd (rename_file src dst fs)) !! q = files fs !! q.
Proof.
  intros H1 H2. unfold rename_file. destruct (files fs !! src); [|reflexivity].
  destruct (is_dir fs dst); [reflexivity|].
  destruct (negb _); [reflexivity|]. cbn.
  rewrite lookup_insert_ne by congruence. now apply lookup_delete_ne.
Qed.

Lemma under_child (dir : Path) (n : string) :
  under dir (fst dir, n :: snd dir).
Proof. split; [reflexivity|]. apply suffix_cons_r. reflexivity. Qed.

Lemma under_member (dir : Path) (m : Member) : under dir (member_target dir m).
Proof. split; [reflexivity|]. unfold member_target. cbn. now apply suffix_app_r. Qed.

(** [fetch_album] of an item whose title has no slash writes, replaces
    and removes files in the directory of the item and below it only:
    every file elsewhere is what it was, however the fetch ends. *)
Theorem fetch_album_stays_in_directory http_get zip_members
  (self : DownloadAlbum) (q : Path) :
  has_slash (item_title (album self)) = false ->
  ~ under (dir_of self) q ->
  keeps_file q (fetch_album http_get zip_members self).
Proof.
  intros Htitle Hq.
  assert (Hplain : plain_name (mp3_name self) = true).
  { apply plain_name_long.
    - unfold mp3_name. now rewrite has_slash_app, Htitle.
    - unfold mp3_name. rewrite str_length_app. cbn. lia. }
  assert (Hzip : q <> zip_of self)
    by (intros ->; apply Hq; rewrite zip_of_eq; apply under_child).
  assert (Hlock : q <> lock_of self)
    by (intros ->; apply Hq; rewrite lock_of_eq; apply under_child).
  assert (Hmp3 : q <> mp3_of self)
    by (intros ->; apply Hq; rewrite mp3_of_eq by exact Hplain; apply under_child).
  assert (Hpath : keeps_file q (download_path self)) by apply keeps_file_path.
  assert (Hlp : keeps_file q (lock_path self)) by apply keeps_file_path.
  assert (Hprint : forall line, keeps_file q (print line)) by (intros line w; reflexivity).
  unfold fetch_album.
  apply (keeps_file_bind _ _ _ (fun _ => True)); auto.
  { unfold locked. apply (keeps_file_bind _ _ _ (fun _ => True)); auto.
    intros p _ w. reflexivity. }
  intros [|] _; [apply Hprint|].
  apply (keeps_file_bind _ _ _ (fun _ => True)); auto.
  intros _ _. apply (keeps_file_bind _ _ _ (fun _ => True)); auto.
  { (* download *)
    unfold download.
    apply (keeps_file_bind _ _ _ (fun p => resolve p = zip_of self));
      [exact Hpath | apply download_path_returns |].
    intros p ->. apply (keeps_file_bind _ _ _ (fun _ => True)); auto.
    { apply keeps_file_with_fs. intros fs. now apply files_open_w_ne. }
    intros _ _. apply (keeps_file_bind _ _ _ (fun _ => True)); auto.
    { intros w. unfold session_get. destruct (url_of_json _); [|reflexivity].
      now destruct (http_get (w_net w) s). }
    intros body _. induction (iter_content 1024 body) as [|b bs IH].
    - intros w. reflexivity.
    - cbn [write_blocks]. apply (keeps_file_bind _ _ _ (fun _ => True)); auto.
      apply keeps_file_with_fs. intros fs. now apply files_write_block_ne. }
  intros _ _. apply (keeps_file_bind _ _ _ (fun _ => True)); auto.
  { (* extract *)
    unfold extract. apply keeps_file_try_except.
    - apply (keeps_file_bind _ _ _ (fun p => resolve p = zip_of self));
        [exact Hpath | apply download_path_returns |].
      intros p Hp. apply (keeps_file_bind _ _ _ (fun _ => True)); auto.
      { apply keeps_file_with_fs. intros fs. now rewrite read_file_state. }
      intros bytes _. destruct (zip_members bytes) as [ms|];
        [|intros w; reflexivity].
      apply (keeps_file_bind _ _ _ (fun d => d = dir_string self));
        [apply keeps_file_download_dir | apply download_dir_returns |].
      intros d ->. apply keeps_file_with_fs. intros fs. fold (dir_of self).
      destruct (extractall_members (dir_of self) ms fs) as (Hf & _).
      apply Hf. intros m _ Hm. apply Hq. rewrite <- Hm. apply under_member.
    - unfold rename_to_mp3.
      apply (keeps_file_bind _ _ _ (fun p => resolve p = zip_of self));
        [exact Hpath | apply download_path_returns |].
      intros src ->.
      apply (keeps_file_bind _ _ _ (fun d => d = dir_string self));
        [apply keeps_file_download_dir | apply download_dir_returns |].
      intros d ->. apply keeps_file_with_fs. intros fs.
      fold (mp3_of self). now apply files_rename_file_ne. }
  intros _ _. unfold lock.
  apply (keeps_file_bind _ _ _ (fun p => resolve p = lock_of self));
    [exact Hlp | apply lock_path_returns |].
  intros p ->. apply keeps_file_with_fs. intros fs. now apply files_open_w_ne.
Qed.

Lemma fetch_album_stays_in_directory_witness :
  files (w_fs (snd (fetch_album ex_http_get ex_zip ex_downloader ex_locked_world)))
    !! (false, ["other.mp3"; "Music"])
  = files (w_fs ex_locked_world) !! (false, ["other.mp3"; "Music"]).
Proof.
  apply (fetch_album_stays_in_directory ex_http_get ex_zip ex_downloader
           (false, ["other.mp3"; "Music"])).
  - reflexivity.
  - intros [_ [k Hk]]. apply (f_equal length) in Hk.
    rewrite length_app in Hk. cbn in Hk. lia.
Defined.
